(** * gumble: connection establishment and the initial Version packet

    A shallow embedding of [gumble/client.go] and [gumble/config.go]:
    [packSemver], the version-override resolution and the body of
    [DialWithDialer], together with the parts of Go's [fmt], [strconv],
    [unicode/utf8] and [time] packages those functions call. *)

From Stdlib Require Import ZArith QArith List String Ascii Bool Lia.
Import ListNotations.
Local Open Scope Z_scope.
Local Open Scope bool_scope.

(** ** Machine integers *)

(** A [uint32] is a [Z] reduced modulo 2^32. *)
Definition wrap32 (x : Z) : Z := x mod 2 ^ 32.
Definition wrap64 (x : Z) : Z := x mod 2 ^ 64.

(** [x << k] on [uint32] operands. *)
Definition shl32 (x k : Z) : Z := wrap32 (Z.shiftl x k).
(** [x | y] on [uint32] operands. *)
Definition or32 (x y : Z) : Z := wrap32 (Z.lor x y).

(** ** Go strings, bytes and runes *)

Definition rune := Z.

Definition byte_of (a : ascii) : Z := Z.of_N (N_of_ascii a).

Fixpoint bytes (s : string) : list Z :=
  match s with
  | EmptyString => []
  | String a s' => byte_of a :: bytes s'
  end.

Module utf8.

Definition RuneError : rune := 0xFFFD.
Definition RuneSelf : Z := 0x80.

(** A continuation byte, 10xxxxxx. *)
Definition cont (b : Z) : bool := (0x80 <=? b) && (b <=? 0xBF).

(** Bounds on the second byte, Go's [acceptRanges]. *)
Definition second_lo (b0 : Z) : Z :=
  if b0 =? 0xE0 then 0xA0 else if b0 =? 0xF0 then 0x90 else 0x80.
Definition second_hi (b0 : Z) : Z :=
  if b0 =? 0xED then 0x9F else if b0 =? 0xF4 then 0x8F else 0xBF.
Definition second_ok (b0 b1 : Z) : bool :=
  (second_lo b0 <=? b1) && (b1 <=? second_hi b0).

Definition rune2 (b0 b1 : Z) : rune :=
  Z.lor (Z.shiftl (Z.land b0 0x1F) 6) (Z.land b1 0x3F).
Definition rune3 (b0 b1 b2 : Z) : rune :=
  Z.lor (Z.lor (Z.shiftl (Z.land b0 0x0F) 12) (Z.shiftl (Z.land b1 0x3F) 6))
        (Z.land b2 0x3F).
Definition rune4 (b0 b1 b2 b3 : Z) : rune :=
  Z.lor (Z.lor (Z.lor (Z.shiftl (Z.land b0 0x07) 18)
                      (Z.shiftl (Z.land b1 0x3F) 12))
               (Z.shiftl (Z.land b2 0x3F) 6))
        (Z.land b3 0x3F).

(** The runes that repeated [DecodeRune] yields on a byte sequence: an
    invalid or truncated encoding gives [RuneError] and consumes one
    byte. *)
Fixpoint decode (s : list Z) : list rune :=
  match s with
  | [] => []
  | b0 :: t0 =>
    if b0 <? RuneSelf then b0 :: decode t0
    else if b0 <? 0xC2 then RuneError :: decode t0
    else if b0 <? 0xE0 then
      match t0 with
      | b1 :: t1 =>
        if cont b1 then rune2 b0 b1 :: decode t1
        else RuneError :: decode t0
      | [] => RuneError :: decode t0
      end
    else if b0 <? 0xF0 then
      match t0 with
      | b1 :: b2 :: t2 =>
        if second_ok b0 b1 && cont b2 then rune3 b0 b1 b2 :: decode t2
        else RuneError :: decode t0
      | _ => RuneError :: decode t0
      end
    else if b0 <? 0xF5 then
      match t0 with
      | b1 :: b2 :: b3 :: t3 =>
        if second_ok b0 b1 && cont b2 && cont b3
        then rune4 b0 b1 b2 b3 :: decode t3
        else RuneError :: decode t0
      | _ => RuneError :: decode t0
      end
    else RuneError :: decode t0
  end.

End utf8.

(** The runes a reader sees when it scans the string. *)
Definition runes (s : string) : list rune := utf8.decode (bytes s).

(** ** [strconv.ParseUint] in base 10 with bit size 64 *)

Module strconv.

Inductive NumError := ErrSyntax | ErrRange.

Definition maxUint64 : Z := 2 ^ 64 - 1.
(** The smallest number such that [cutoff * 10 > maxUint64]. *)
Definition cutoff : Z := maxUint64 / 10 + 1.

Definition is_digit (c : rune) : bool := (48 <=? c) && (c <=? 57).

(** The digit loop; [n] is the [uint64] accumulated so far. *)
Fixpoint parse_loop (n : Z) (s : list rune) : Z + NumError :=
  match s with
  | [] => inl n
  | c :: s' =>
    if is_digit c then
      let d := c - 48 in
      if cutoff <=? n then inr ErrRange
      else
        let n := wrap64 (n * 10) in
        let n1 := wrap64 (n + d) in
        if (n1 <? n) || (maxUint64 <? n1) then inr ErrRange
        else parse_loop n1 s'
    else inr ErrSyntax
  end.

Definition ParseUint (s : list rune) : Z + NumError :=
  match s with
  | [] => inr ErrSyntax
  | _ => parse_loop 0 s
  end.

End strconv.

(** ** The scanner of package [fmt]

    [Sscanf] reads the string rune by rune with one rune of look-ahead.  No
    width is given in the format of [packSemver], so the only limit on what
    is read is [hugeWid], 2^30 runes, which is left out here. *)

Module fmt.

Inductive ScanError :=
| ErrUnexpectedEOF
| ErrUnexpectedNewline
| ErrExpectedInteger
| ErrStrconv (e : strconv.NumError)
| ErrUintOverflow
| ErrNoMatch
| ErrTooFewOperands
| ErrTooManyOperands.

(** Scanning steps read from the remaining input and either fail (the
    panic that [errorHandler] recovers) or leave a value and the input
    that is left. *)
Definition Scan (A : Type) : Type := list rune -> ScanError + (A * list rune).

Definition ret {A} (a : A) : Scan A := fun inp => inr (a, inp).
Definition fail {A} (e : ScanError) : Scan A := fun _ => inl e.
Definition bind {A B} (m : Scan A) (k : A -> Scan B) : Scan B :=
  fun inp => match m inp with
             | inl e => inl e
             | inr (a, inp') => k a inp'
             end.

Declare Scope scan_scope.
Delimit Scope scan_scope with scan.
Notation "x <- m ;; k" := (bind m (fun x => k))
  (at level 100, m at next level, right associativity) : scan_scope.
Notation "m ;; k" := (bind m (fun _ => k))
  (at level 100, right associativity) : scan_scope.
Local Open Scope scan_scope.

(** The table [space] of scan.go. *)
Definition space : list (Z * Z) :=
  [ (0x0009, 0x000d); (0x0020, 0x0020); (0x0085, 0x0085); (0x00a0, 0x00a0);
    (0x1680, 0x1680); (0x2000, 0x200a); (0x2028, 0x2029); (0x202f, 0x202f);
    (0x205f, 0x205f); (0x3000, 0x3000) ].

Fixpoint in_ranges (rx : Z) (tbl : list (Z * Z)) : bool :=
  match tbl with
  | [] => false
  | (lo, hi) :: tbl' =>
    if rx <? lo then false
    else if rx <=? hi then true
    else in_ranges rx tbl'
  end.

Definition isSpace (r : rune) : bool :=
  if 2 ^ 16 <=? r then false else in_ranges r space.

(** [s.peek(ok)]: is the next rune one of [ok]?  Nothing is consumed. *)
Definition peek (ok : rune -> bool) (inp : list rune) : bool :=
  match inp with
  | [] => false
  | r :: _ => ok r
  end.

Definition is_newline (r : rune) : bool := r =? 10.

(** [s.SkipSpace()] with [nlIsSpace] false, as [Sscanf] sets it. *)
Fixpoint SkipSpace (inp : list rune) : ScanError + (unit * list rune) :=
  match inp with
  | [] => inr (tt, [])
  | r :: inp' =>
    if (r =? 13) && peek is_newline inp' then SkipSpace inp'
    else if r =? 10 then inl ErrUnexpectedNewline
    else if isSpace r then SkipSpace inp'
    else inr (tt, inp)
  end.

(** [s.notEOF()]. *)
Definition notEOF : Scan unit :=
  fun inp => match inp with
             | [] => inl ErrUnexpectedEOF
             | _ => inr (tt, inp)
             end.

(** [s.accept(digits)]: consume the next rune when it is a digit. *)
Definition accept (ok : rune -> bool) : Scan (option rune) :=
  fun inp => match inp with
             | r :: inp' => if ok r then inr (Some r, inp') else inr (None, inp)
             | [] => inr (None, [])
             end.

(** The loop [for s.accept(digits) {}], collecting the token. *)
Fixpoint accept_all (ok : rune -> bool) (inp : list rune)
  : list rune * list rune :=
  match inp with
  | r :: inp' =>
    if ok r then let (tok, rest) := accept_all ok inp' in (r :: tok, rest)
    else ([], inp)
  | [] => ([], [])
  end.

(** [s.scanNumber(digits, false)]. *)
Definition scanNumber (ok : rune -> bool) : Scan (list rune) :=
  notEOF ;;
  first <- accept ok ;;
  match first with
  | None => fail ErrExpectedInteger
  | Some r => fun inp => let (tok, rest) := accept_all ok inp in
                         inr (r :: tok, rest)
  end.

(** [s.scanUint('d', bitSize)]: [getBase] gives base 10 and the decimal
    digits. *)
Definition scanUint (bitSize : Z) : Scan Z :=
  SkipSpace ;;
  notEOF ;;
  tok <- scanNumber strconv.is_digit ;;
  match strconv.ParseUint tok with
  | inr e => fail (ErrStrconv e)
  | inl i =>
    let n := bitSize in
    let x := Z.shiftr (wrap64 (Z.shiftl i (64 - n))) (64 - n) in
    if x =? i then ret i else fail ErrUintOverflow
  end.

(** What [doScanf] meets when it walks a format: a verb or a literal
    rune. *)
Inductive Item :=
| Verb_d
| Lit (c : rune).

(** [doScanf] for [*uint32] operands.  [vals] are the operands stored so
    far, [nargs] is [len(a)].  The result is [numProcessed], the stored
    operands and the error. *)
Fixpoint doScanf (format : list Item) (nargs : nat) (numProcessed : nat)
         (vals : list Z) (inp : list rune) : nat * list Z * option ScanError :=
  match format with
  | [] =>
    if (numProcessed <? nargs)%nat
    then (numProcessed, vals, Some ErrTooManyOperands)
    else (numProcessed, vals, None)
  | Lit c :: format' =>
    match inp with
    | [] => (numProcessed, vals, Some ErrUnexpectedEOF)
    | r :: inp' =>
      if c =? r then doScanf format' nargs numProcessed vals inp'
      else (numProcessed, vals, Some ErrNoMatch)
    end
  | Verb_d :: format' =>
    match SkipSpace inp with
    | inl e => (numProcessed, vals, Some e)
    | inr (_, inp1) =>
      if (nargs <=? numProcessed)%nat
      then (numProcessed, vals, Some ErrTooFewOperands)
      else
        match scanUint 32 inp1 with
        | inl e => (numProcessed, vals, Some e)
        | inr (v, inp2) =>
          doScanf format' nargs (S numProcessed) (vals ++ [wrap32 v]) inp2
        end
    end
  end.

(** [Sscanf(str, format, a...)] with [len(a) = nargs]. *)
Definition Sscanf (str : string) (format : list Item) (nargs : nat)
  : nat * list Z * option ScanError :=
  doScanf format nargs 0%nat [] (runes str).

End fmt.

(** ** Errors *)

(** Modelled from the spec: the type [RejectError] is declared outside
    client.go; the Rejection Result is "a terminal handshake outcome carrying
    a reason code and human-readable text". *)
Record RejectError := { Type_ : Z; Reason : string }.

(** The error values [packSemver] and [DialWithDialer] return. *)
Inductive error :=
| ErrInvalidSemver (s : string)  (* fmt.Errorf("invalid semver %q", s) *)
| ErrSyncTimeout                 (* errors.New("gumble: synchronization timeout") *)
| ErrDial (msg : string)         (* the error of tls.DialWithDialer *)
| ErrReject (r : RejectError).   (* a non-nil *RejectError *)

(** ** client.go: [packSemver] *)

(** The format ["%d.%d.%d"]. *)
Definition semverFormat : list fmt.Item :=
  [fmt.Verb_d; fmt.Lit 46; fmt.Verb_d; fmt.Lit 46; fmt.Verb_d].

(** [packSemver] turns "MAJOR.MINOR.PATCH" into the uint32 used in Mumble's
    Version.  [maj], [min] and [pat] start as zero and are stored by
    [Sscanf] in order. *)
Definition packSemver (s : string) : Z * option error :=
  let '(n, vals, err) := fmt.Sscanf s semverFormat 3 in
  let maj := nth 0 vals 0 in
  let min := nth 1 vals 0 in
  let pat := nth 2 vals 0 in
  if (match err with Some _ => true | None => false end)
     || negb (n =? 3)%nat
     || (0xFFFF <? maj) || (0xFF <? min) || (0xFF <? pat)
  then (0, Some (ErrInvalidSemver s))
  else (or32 (or32 (shl32 maj 16) (shl32 min 8)) pat, None).

(** ** client.go: connection states *)

(** [type State int]. *)
Definition State := Z.

Definition StateDisconnected : State := 0.
Definition StateConnected : State := 1.
Definition StateSynced : State := 2.

(** [ClientVersion] is the protocol version that Client implements. *)
Definition ClientVersion : Z := Z.lor (Z.lor (Z.shiftl 1 16) (Z.shiftl 3 8)) 0.

(** ** config.go *)

Record VersionOverride := {
  Release : string;
  OS : string;
  OSVersion : string;
  Semver : string;
  VersionUint32 : option Z          (* *uint32 *)
}.

(** [Config]; the listener registries are not read by the code below and are
    left out. *)
Record Config := {
  Username : string;
  Password : string;
  Config_VersionOverride : option VersionOverride;
  Tokens : list string;
  AudioInterval : Z;
  AudioDataBytes : Z
}.

(** ** The messages of the handshake *)

Module MumbleProto.

Record Version := {
  Version_ : option Z;
  Release : option string;
  Os : option string;
  OsVersion : option string
}.

Record Authenticate := {
  Username : option string;
  Password : option string;
  Tokens : list string;
  CeltVersions : list Z;
  Opus : option bool
}.

End MumbleProto.

Inductive Message :=
| MsgVersion (p : MumbleProto.Version)
| MsgAuthenticate (p : MumbleProto.Authenticate).

(** ** Package [time] *)

Module time.

(** An instant, in nanoseconds since January 1, year 1, 00:00:00 UTC: the
    zero [Time] is [0]. *)
Definition Time := Z.
(** An [int64] count of nanoseconds. *)
Definition Duration := Z.

Definition minDuration : Duration := - 2 ^ 63.
Definition maxDuration : Duration := 2 ^ 63 - 1.

Definition IsZero (t : Time) : bool := t =? 0.
Definition Add (t : Time) (d : Duration) : Time := t + d.
Definition Before (t u : Time) : bool := t <? u.

(** [t.Sub(u)] saturates at the ends of [Duration]. *)
Definition Sub (t u : Time) : Duration :=
  let d := t - u in
  if d <? minDuration then minDuration
  else if maxDuration <? d then maxDuration
  else d.

End time.

(** The fields of [net.Dialer] that [DialWithDialer] reads. *)
Record Dialer := {
  Timeout : time.Duration;
  Deadline : time.Time
}.

(** Some fields of [tls.Config]; a nil [*tls.Config] is [None]. *)
Record tls_Config := {
  ServerName : string;
  InsecureSkipVerify : bool
}.

(** ** client.go: [Client] *)

(** The connection that [tls.DialWithDialer] opened. *)
Record NetConn := { connID : Z }.

(** [NewConn(conn)]. *)
Record Conn := { netConn : NetConn }.
Definition NewConn (c : NetConn) : Conn := {| netConn := c |}.

(** [Client]: the configuration, the connection, the ping statistics and
    the state word.  The collections [Users], [Channels] and [permissions]
    start empty and are not touched by the code below. *)
Record Client := {
  Client_Config : option Config;     (* *Config *)
  Client_Conn : Conn;
  tcpPacketsReceived : Z;            (* uint32 *)
  tcpPingTimes : list Z;             (* [12]float32, each by its bits *)
  tcpPingAvg : Z;                    (* uint32 *)
  tcpPingVar : Z;                    (* uint32 *)
  state : Z                          (* uint32 *)
}.

(** The literal [&Client{...}] of [DialWithDialer]; the fields it does not
    name are zero. *)
Definition newClient (conn : NetConn) (config : option Config) : Client :=
  {| Client_Conn := NewConn conn;
     Client_Config := config;
     tcpPacketsReceived := 0;
     tcpPingTimes := repeat 0 12;
     tcpPingAvg := 0;
     tcpPingVar := 0;
     state := wrap32 StateConnected |}.

(** [func (c *Client) State() State]: the state word, converted. *)
Definition Client_State (c : Client) : State := state c.

(** ** What [DialWithDialer] does to the world *)

Inductive Event :=
| EvDial (network addr : string)     (* tls.DialWithDialer(dialer, network, addr, _) *)
| EvGoReadRoutine                    (* go client.readRoutine() *)
| EvWriteProto (m : Message)         (* client.Conn.WriteProto(m) *)
| EvGoPingRoutine                    (* go client.pingRoutine() *)
| EvNewTimer (d : time.Duration)     (* time.NewTimer(d) *)
| EvTimerStop                        (* the deferred timer.Stop() *)
| EvConnClose.                       (* client.Conn.Close() *)

(** How a call ends: it returns, it panics, or it never returns. *)
Inductive Result (A : Type) :=
| Returned (a : A)
| Panicked
| Blocked.
Arguments Returned {A} a.
Arguments Panicked {A}.
Arguments Blocked {A}.

(** A computation appends the events it performs to the log. *)
Definition M (A : Type) : Type := list Event -> Result A * list Event.

Definition ret {A} (a : A) : M A := fun log => (Returned a, log).
Definition bind {A B} (m : M A) (k : A -> M B) : M B :=
  fun log => match m log with
             | (Returned a, log') => k a log'
             | (Panicked, log') => (Panicked, log')
             | (Blocked, log') => (Blocked, log')
             end.
Definition emit (e : Event) : M unit := fun log => (Returned tt, log ++ [e]).
Definition panic {A} : M A := fun log => (Panicked, log).
Definition block {A} : M A := fun log => (Blocked, log).

Declare Scope dial_scope.
Delimit Scope dial_scope with dial.
Notation "x <- m ;; k" := (bind m (fun x => k))
  (at level 100, m at next level, right associativity) : dial_scope.
Notation "m ;; k" := (bind m (fun _ => k))
  (at level 100, right associativity) : dial_scope.

(** Which case a [select] runs when both the timer and the handoff on
    [client.connect] can complete it. *)
Inductive Pick := PickTimeout | PickConnect.

(** The surroundings of one call. *)
Record Env := {
  (** [time.Now()] at entry *)
  now : time.Time;
  (** [runtime.GOOS], [runtime.GOARCH] *)
  GOOS : string;
  GOARCH : string;
  (** [getAudioCodec(audioCodecIDOpus) != nil] *)
  opusRegistered : bool;
  (** the result of [tls.DialWithDialer] *)
  tlsDial : Dialer -> string -> string -> option tls_Config -> NetConn + string;
  (** the value the read routine hands over on [client.connect] ([None]
      inside: nil, also read from the closed channel), if it ever does *)
  offered : option (option RejectError);
  pick : Pick
}.

(** ** client.go: [DialWithDialer] *)

Section Dial.

Variable env : Env.

Local Open Scope string_scope.
Local Open Scope Z_scope.
Local Open Scope dial_scope.

(** [tls.DialWithDialer(dialer, network, addr, tlsConfig)]. *)
Definition tls_DialWithDialer (dialer : Dialer) (network addr : string)
           (tlsConfig : option tls_Config) : M (NetConn + string) :=
  emit (EvDial network addr) ;;
  ret (tlsDial env dialer network addr tlsConfig).

(** The four variables [release], [osStr], [osVer] and [verU32] after the
    override block. *)
Definition versionFields (config : option Config)
  : string * string * string * Z :=
  let release := "gumble" in
  let osStr := GOOS env in
  let osVer := GOARCH env in
  let verU32 := wrap32 ClientVersion in
  match config with
  | None => (release, osStr, osVer, verU32)
  | Some cfg =>
    match Config_VersionOverride cfg with
    | None => (release, osStr, osVer, verU32)
    | Some vo =>
      let release := if negb (Release vo =? EmptyString)%string then Release vo else release in
      let osStr := if negb (OS vo =? EmptyString)%string then OS vo else osStr in
      let osVer := if negb (OSVersion vo =? EmptyString)%string then OSVersion vo else osVer in
      let verU32 :=
        match VersionUint32 vo with
        | Some v => v
        | None =>
          if negb (Semver vo =? EmptyString)%string then
            match packSemver (Semver vo) with
            | (packed, None) => packed
            | (_, Some _) => verU32
            end
          else verU32
        end in
      (release, osStr, osVer, verU32)
    end
  end.

Definition versionPacket (config : option Config) : MumbleProto.Version :=
  let '(release, osStr, osVer, verU32) := versionFields config in
  {| MumbleProto.Version_ := Some verU32;
     MumbleProto.Release := Some release;
     MumbleProto.Os := Some osStr;
     MumbleProto.OsVersion := Some osVer |}.

(** The literal [MumbleProto.Authenticate{...}]: it reads through
    [client.Config], so a nil [Config] is a nil dereference. *)
Definition authenticationPacket (config : option Config)
  : M MumbleProto.Authenticate :=
  match config with
  | None => panic
  | Some cfg =>
    ret {| MumbleProto.Username := Some (Username cfg);
           MumbleProto.Password := Some (Password cfg);
           MumbleProto.Tokens := Tokens cfg;
           MumbleProto.CeltVersions := [];
           MumbleProto.Opus := Some (opusRegistered env) |}
  end.

(** The variable [deadline] at the end of the block that sets up the
    timer; the zero [Time] when neither bound is set. *)
Definition deadline (dialer : Dialer) (start : time.Time) : time.Time :=
  let deadline := 0 in
  let deadline :=
    if negb (time.IsZero (Deadline dialer)) then Deadline dialer
    else deadline in
  if 0 <? Timeout dialer then
    let diff := time.Add start (Timeout dialer) in
    if time.IsZero deadline || time.Before diff deadline then diff
    else deadline
  else deadline.

(** The channel [timeout]: [None] is the nil channel, [Some d] the
    channel of a timer that fires after [d]. *)
Definition timeoutChan (dialer : Dialer) (start : time.Time)
  : M (option time.Duration) :=
  let deadline := deadline dialer start in
  if negb (time.IsZero deadline) then
    let d := time.Sub deadline start in
    emit (EvNewTimer d) ;;
    ret (Some d)
  else ret None.

Inductive Selected :=
| SelTimeout                            (* case <-timeout *)
| SelConnect (err : option RejectError). (* case err := <-client.connect *)

(** The [select]: a nil [timeout] never fires, and a handoff on
    [client.connect] happens only if the read routine offers one. *)
Definition select (timeout : option time.Duration) : M Selected :=
  match timeout, offered env with
  | None, None => block
  | None, Some v => ret (SelConnect v)
  | Some _, None => ret SelTimeout
  | Some _, Some v =>
    match pick env with
    | PickTimeout => ret SelTimeout
    | PickConnect => ret (SelConnect v)
    end
  end.

(** [DialWithDialer] connects to the Mumble server at the given address.
    A returned [Some client] stands for the pointer to the object made by
    [newClient]; its [state] word is written by the read routine while
    this function waits. *)
Definition DialWithDialer (dialer : Dialer) (addr : string)
           (config : option Config) (tlsConfig : option tls_Config)
  : M (option Client * option error) :=
  let start := now env in
  r <- tls_DialWithDialer dialer "tcp" addr tlsConfig ;;
  match r with
  | inr err => ret (None, Some (ErrDial err))
  | inl conn =>
    let client := newClient conn config in
    emit EvGoReadRoutine ;;
    let versionPacket := versionPacket (Client_Config client) in
    authenticationPacket <- authenticationPacket (Client_Config client) ;;
    emit (EvWriteProto (MsgVersion versionPacket)) ;;
    emit (EvWriteProto (MsgAuthenticate authenticationPacket)) ;;
    emit EvGoPingRoutine ;;
    timeout <- timeoutChan dialer start ;;
    sel <- select timeout ;;
    res <- match sel with
           | SelTimeout =>
             emit EvConnClose ;;
             ret (None, Some ErrSyncTimeout)
           | SelConnect (Some err) =>
             emit EvConnClose ;;
             ret (None, Some (ErrReject err))
           | SelConnect None =>
             ret (Some client, None)
           end ;;
    (* defer timer.Stop() *)
    match timeout with
    | Some _ => emit EvTimerStop
    | None => ret tt
    end ;;
    ret res
  end.

(** [Dial] is an alias of [DialWithDialer(new(net.Dialer), addr, config, nil)]. *)
Definition Dial (addr : string) (config : option Config)
  : M (option Client * option error) :=
  DialWithDialer {| Timeout := 0; Deadline := 0 |} addr config None.

End Dial.

(** ** config.go: [NewConfig] and [AudioFrameSize] *)

(** An [int64], and an [int] of a 64-bit target, is a [Z] reduced to the
    signed range. *)
Definition sint64 (x : Z) : Z := (x + 2 ^ 63) mod 2 ^ 64 - 2 ^ 63.

Section Audio.

(** The constants [AudioDefaultInterval], [AudioDefaultFrameSize] and
    [AudioDefaultDataBytes] are declared outside config.go. *)
Variable AudioDefaultInterval : time.Duration.
Variable AudioDefaultFrameSize : Z.
Variable AudioDefaultDataBytes : Z.

(** [NewConfig] returns a new Config struct with default values set; the
    fields the literal does not name are zero. *)
Definition NewConfig : Config :=
  {| Username := EmptyString;
     Password := EmptyString;
     Config_VersionOverride := None;
     Tokens := [];
     AudioInterval := AudioDefaultInterval;
     AudioDataBytes := AudioDefaultDataBytes |}.

(** [AudioFrameSize]: [int(c.AudioInterval/AudioDefaultInterval) *
    AudioDefaultFrameSize].  The division of two [Duration]s truncates
    toward zero; a zero constant as divisor does not compile. *)
Definition AudioFrameSize (c : Config) : Z :=
  sint64 (sint64 (Z.quot (AudioInterval c) AudioDefaultInterval)
          * AudioDefaultFrameSize).

End Audio.

(** ** The Read/Dispatch Loop *)

(** The kinds of frame the loop tells apart. *)
Inductive Frame :=
| FrVersion
| FrPing
| FrPingReply
| FrServerSync
| FrReject (r : RejectError)
| FrOther.

(** The loop's view of the connection: the state word, the one-time signal
    on [client.connect] once it has been performed, and whether the loop
    still runs. *)
Record Loop := {
  loop_state : State;
  signal : option (option RejectError);
  running : bool
}.

(** The loop starts when [DialWithDialer] has set the state to
    [StateConnected]. *)
Definition loop_start : Loop :=
  {| loop_state := StateConnected; signal := None; running := true |}.

(** Modelled from the spec: the body of [readRoutine] is outside client.go.
    One iteration on a frame that was read: a server-sync message, if it is
    the first, moves Connected to Synced and performs the one-time signal
    with the successful outcome; a reject message moves the state to
    Disconnected, performs the one-time signal with the failure outcome if
    the connection had not yet synced, and ends the loop; the other kinds
    leave the state alone. *)
Definition dispatch (l : Loop) (f : Frame) : Loop :=
  if running l then
    match f with
    | FrServerSync =>
      if loop_state l =? StateConnected
      then {| loop_state := StateSynced; signal := Some None; running := true |}
      else l
    | FrReject r =>
      {| loop_state := StateDisconnected;
         signal := if loop_state l =? StateConnected then Some (Some r)
                   else signal l;
         running := false |}
    | _ => l
    end
  else l.

(** The loop after the given frames have arrived, in order. *)
Definition readRoutine (frames : list Frame) : Loop :=
  fold_left dispatch frames loop_start.

Definition is_sync (f : Frame) : bool :=
  match f with FrServerSync => true | _ => false end.
Definition is_reject (f : Frame) : bool :=
  match f with FrReject _ => true | _ => false end.

(** ** The Ping Sample Window *)

Section PingStatistics.

(** The samples are [float32]; the statistics only add, subtract,
    multiply and divide them and convert a count. *)
Variable float32 : Type.
Variable zero : float32.
Variables add sub mul div : float32 -> float32 -> float32.
Variable of_count : nat -> float32.

(** [len(c.tcpPingTimes)], from the declaration [tcpPingTimes [12]float32]. *)
Definition pingWindowSize : nat := 12.

(** The window, oldest sample first, with the published statistics and
    the count of replies. *)
Record PingWindow := {
  samples : list float32;
  received : Z;
  pingAvg : float32;
  pingVar : float32
}.

Definition total (l : list float32) : float32 := fold_left add l zero.

Definition mean (l : list float32) : float32 :=
  div (total l) (of_count (List.length l)).

(** Two-pass variance around the mean. *)
Definition variance (l : list float32) : float32 :=
  let m := mean l in
  div (total (map (fun x => mul (sub m x) (sub m x)) l))
      (of_count (List.length l)).

Definition emptyWindow : PingWindow :=
  {| samples := []; received := 0; pingAvg := zero; pingVar := zero |}.

(** Modelled from the spec: the handler of ping replies is outside
    client.go.  A sample is inserted into the window, "evicting the oldest
    sample if at capacity", and the mean and variance "over the window's
    current contents" are published with the count of replies. *)
Definition insertSample (w : PingWindow) (s : float32) : PingWindow :=
  let kept := if (List.length (samples w) <? pingWindowSize)%nat
              then samples w else tl (samples w) in
  let l := kept ++ [s] in
  {| samples := l;
     received := wrap32 (received w + 1);
     pingAvg := mean l;
     pingVar := variance l |}.

Definition insertAll (l : list float32) : PingWindow :=
  fold_left insertSample l emptyWindow.

End PingStatistics.

Arguments samples {float32} _.
Arguments received {float32} _.
Arguments pingAvg {float32} _.
Arguments pingVar {float32} _.

(** * Vocabulary of the statements *)

Local Open Scope string_scope.
Local Open Scope list_scope.
Local Open Scope Z_scope.

(** ** Logs of [DialWithDialer] *)

(** The messages written to the transport, in order. *)
Fixpoint writes (log : list Event) : list Message :=
  match log with
  | [] => []
  | EvWriteProto m :: log' => m :: writes log'
  | _ :: log' => writes log'
  end.

(** The Authenticate message of a configuration. *)
Definition authenticateOf (env : Env) (cfg : Config) : MumbleProto.Authenticate :=
  {| MumbleProto.Username := Some (Username cfg);
     MumbleProto.Password := Some (Password cfg);
     MumbleProto.Tokens := Tokens cfg;
     MumbleProto.CeltVersions := [];
     MumbleProto.Opus := Some (opusRegistered env) |}.

(** The log when the handshake has been sent and both routines started. *)
Definition handshakeLog (env : Env) (addr : string) (cfg : Config) : list Event :=
  [ EvDial "tcp" addr;
    EvGoReadRoutine;
    EvWriteProto (MsgVersion (versionPacket env (Some cfg)));
    EvWriteProto (MsgAuthenticate (authenticateOf env cfg));
    EvGoPingRoutine ].

(** ** Worked examples *)

(** An environment for worked examples: a linux/amd64 host with Opus
    registered, at some instant of the year 2026. *)
Definition exampleEnv (dial : NetConn + string)
           (off : option (option RejectError)) (pk : Pick) : Env :=
  {| now := 63900000000000000000;
     GOOS := "linux";
     GOARCH := "amd64";
     opusRegistered := true;
     tlsDial := fun _ _ _ _ => dial;
     offered := off;
     pick := pk |}.

Definition exampleConfig : Config :=
  {| Username := "bot";
     Password := "secret";
     Config_VersionOverride := None;
     Tokens := ["lobby"; "staff"];
     AudioInterval := 10000000;
     AudioDataBytes := 40 |}.

Definition exampleConn : NetConn := {| connID := 7 |}.

Definition exampleReject : RejectError :=
  {| Type_ := 2; Reason := "wrong password" |}.

(** An override that sets the operating system only. *)
Definition onlyOS : VersionOverride :=
  {| Release := EmptyString;
     OS := "windows";
     OSVersion := EmptyString;
     Semver := EmptyString;
     VersionUint32 := None |}.

(** An override whose minor number is out of range. *)
Definition minorTooLarge : VersionOverride :=
  {| Release := EmptyString;
     OS := EmptyString;
     OSVersion := EmptyString;
     Semver := "1.256.0";
     VersionUint32 := None |}.

(** A configuration with the given override. *)
Definition configWith (vo : VersionOverride) : Config :=
  {| Username := "bot";
     Password := EmptyString;
     Config_VersionOverride := Some vo;
     Tokens := [];
     AudioInterval := 10000000;
     AudioDataBytes := 40 |}.

(** ** The read loop *)

(** A frame that neither syncs nor rejects. *)
Definition passive (f : Frame) : bool := negb (is_sync f) && negb (is_reject f).

(** ** Deadlines *)

(** The bounds a dialer sets: its absolute deadline when that is not the
    zero time, and the start time plus its timeout when that is positive. *)
Definition bounds (dialer : Dialer) (start : time.Time) : list time.Time :=
  (if Deadline dialer =? 0 then [] else [Deadline dialer]) ++
  (if 0 <? Timeout dialer then [start + Timeout dialer] else []).

(** The earliest of a list of instants, if there is one. *)
Definition earliest (ts : list time.Time) : option time.Time :=
  match ts with
  | [] => None
  | t :: ts' => Some (fold_left Z.min ts' t)
  end.

(** ** Version strings *)

(** Decimal numerals as strings, and the numbers they denote. *)
Fixpoint all_digits (s : string) : bool :=
  match s with
  | EmptyString => true
  | String a s' => strconv.is_digit (byte_of a) && all_digits s'
  end.

Definition numeral (s : string) : bool :=
  negb (s =? EmptyString)%string && all_digits s.

Fixpoint digits_value (acc : Z) (ds : list rune) : Z :=
  match ds with
  | [] => acc
  | c :: ds' => digits_value (acc * 10 + (c - 48)) ds'
  end.

Definition value (s : string) : Z := digits_value 0 (bytes s).

(** Numerals joined by dots. *)
Fixpoint dotted (parts : list string) : string :=
  match parts with
  | [] => EmptyString
  | [s] => s
  | s :: parts' => (s ++ "." ++ dotted parts')%string
  end.

(** The word of a version triple, and the triple of a word. *)
Definition pack (maj min pat : Z) : Z :=
  Z.lor (Z.lor (Z.shiftl maj 16) (Z.shiftl min 8)) pat.
Definition unpack (w : Z) : Z * Z * Z :=
  (Z.shiftr w 16, Z.land (Z.shiftr w 8) 0xFF, Z.land w 0xFF).

(** Why a numeral that does not fit a [uint32] is refused. *)
Definition overflowError (v : Z) : fmt.ScanError :=
  if v <? 2 ^ 64 then fmt.ErrUintOverflow else fmt.ErrStrconv strconv.ErrRange.

(** Three dotted numerals of which one exceeds its bound. *)
Definition violates_bound (s : string) : Prop :=
  exists M m p,
    numeral M = true /\ numeral m = true /\ numeral p = true /\
    s = dotted [M; m; p] /\
    (65535 < value M \/ 255 < value m \/ 255 < value p).

(** Fewer than three dotted numerals. *)
Definition fewer_than_three (s : string) : Prop :=
  exists parts,
    (List.length parts < 3)%nat /\
    Forall (fun x => numeral x = true) parts /\
    s = dotted parts.

(** ** Blanks and trailing text in version strings *)

(** A space or a tab. *)
Definition is_blank (b : Z) : bool := (b =? 32) || (b =? 9).

Fixpoint blanks (s : string) : bool :=
  match s with
  | EmptyString => true
  | String a s' => is_blank (byte_of a) && blanks s'
  end.

(** A byte of the ASCII range. *)
Definition is_ascii (b : Z) : bool := (0 <=? b) && (b <? 128).

(** Text that is empty or starts with an ASCII character other than a
    digit. *)
Definition no_leading_digit (t : string) : bool :=
  match t with
  | EmptyString => true
  | String a _ => is_ascii (byte_of a) && negb (strconv.is_digit (byte_of a))
  end.

(** ** Counting events *)

Definition is_close (e : Event) : bool :=
  match e with EvConnClose => true | _ => false end.
Definition is_new_timer (e : Event) : bool :=
  match e with EvNewTimer _ => true | _ => false end.
Definition is_timer_stop (e : Event) : bool :=
  match e with EvTimerStop => true | _ => false end.
Definition is_go (e : Event) : bool :=
  match e with EvGoReadRoutine | EvGoPingRoutine => true | _ => false end.
Definition is_write (e : Event) : bool :=
  match e with EvWriteProto _ => true | _ => false end.

Definition count (p : Event -> bool) (log : list Event) : nat :=
  List.length (filter p log).

(** The Version message of a client without overrides. *)
Definition defaultVersion (env : Env) : MumbleProto.Version :=
  {| MumbleProto.Version_ := Some ClientVersion;
     MumbleProto.Release := Some "gumble";
     MumbleProto.Os := Some (GOOS env);
     MumbleProto.OsVersion := Some (GOARCH env) |}.

(** An override with every field empty or nil. *)
Definition emptyOverride : VersionOverride :=
  {| Release := EmptyString;
     OS := EmptyString;
     OSVersion := EmptyString;
     Semver := EmptyString;
     VersionUint32 := None |}.

(** * Properties *)

(** ** The handshake and the race in [DialWithDialer] *)

Ltac dial_unfold :=
  unfold DialWithDialer, tls_DialWithDialer, authenticationPacket, timeoutChan,
    select, bind, emit, ret, panic, block.

(** With no deadline the outcome is whatever the read routine hands over. *)
Lemma DialWithDialer_no_deadline env dialer addr tlsConfig cfg conn :
  tlsDial env dialer "tcp" addr tlsConfig = inl conn ->
  deadline dialer (now env) = 0 ->
  DialWithDialer env dialer addr (Some cfg) tlsConfig [] =
  match offered env with
  | None => (Blocked, handshakeLog env addr cfg)
  | Some None =>
    (Returned (Some (newClient conn (Some cfg)), None), handshakeLog env addr cfg)
  | Some (Some r) =>
    (Returned (None, Some (ErrReject r)), handshakeLog env addr cfg ++ [EvConnClose])
  end.
Proof.
  intros Hdial Hzero. dial_unfold. rewrite Hdial, Hzero. simpl.
  destruct (offered env) as [[r|]|]; reflexivity.
Qed.

(** With a deadline a timer is armed, and stopped on return. *)
Lemma DialWithDialer_deadline env dialer addr tlsConfig cfg conn :
  tlsDial env dialer "tcp" addr tlsConfig = inl conn ->
  deadline dialer (now env) <> 0 ->
  let armed := handshakeLog env addr cfg ++
               [EvNewTimer (time.Sub (deadline dialer (now env)) (now env))] in
  DialWithDialer env dialer addr (Some cfg) tlsConfig [] =
  match offered env, pick env with
  | None, _ | Some _, PickTimeout =>
    (Returned (None, Some ErrSyncTimeout), armed ++ [EvConnClose; EvTimerStop])
  | Some None, PickConnect =>
    (Returned (Some (newClient conn (Some cfg)), None), armed ++ [EvTimerStop])
  | Some (Some r), PickConnect =>
    (Returned (None, Some (ErrReject r)), armed ++ [EvConnClose; EvTimerStop])
  end.
Proof.
  intros Hdial Hnz. dial_unfold. rewrite Hdial.
  apply Z.eqb_neq in Hnz. unfold time.IsZero. rewrite Hnz. simpl.
  destruct (offered env) as [[r|]|], (pick env); reflexivity.
Qed.

(** What [deadline] holds, by cases on the two bounds. *)
Lemma deadline_cases dialer start :
  deadline dialer start =
  if Deadline dialer =? 0
  then (if 0 <? Timeout dialer then start + Timeout dialer else 0)
  else (if 0 <? Timeout dialer
        then Z.min (Deadline dialer) (start + Timeout dialer)
        else Deadline dialer).
Proof.
  unfold deadline, time.IsZero, time.Add, time.Before.
  destruct (Deadline dialer =? 0) eqn:HD; simpl;
    destruct (0 <? Timeout dialer) eqn:HT; simpl; try reflexivity.
  rewrite HD. simpl.
  destruct (start + Timeout dialer <? Deadline dialer) eqn:HB.
  - apply Z.ltb_lt in HB. lia.
  - apply Z.ltb_ge in HB. lia.
Qed.

(** *** The read loop before the first sync *)

Lemma dispatch_passive l f : passive f = true -> dispatch l f = l.
Proof.
  unfold dispatch. destruct f; simpl; try discriminate;
    intros _; destruct (running l); reflexivity.
Qed.

Lemma readRoutine_passive frames l :
  forallb passive frames = true -> fold_left dispatch frames l = l.
Proof.
  revert l. induction frames as [|f frames IH]; intros l H; simpl in *.
  - reflexivity.
  - apply andb_true_iff in H. destruct H as [Hf Hrest].
    rewrite dispatch_passive by exact Hf. apply IH. exact Hrest.
Qed.

Lemma dispatch_stopped l f : running l = false -> dispatch l f = l.
Proof. intros H. unfold dispatch. rewrite H. reflexivity. Qed.

Lemma readRoutine_stopped frames l :
  running l = false -> fold_left dispatch frames l = l.
Proof.
  revert l. induction frames as [|f frames IH]; intros l H; simpl.
  - reflexivity.
  - rewrite dispatch_stopped by exact H. apply IH. exact H.
Qed.

Lemma forallb_firstn {A} (p : A -> bool) n l :
  forallb p l = true -> forallb p (firstn n l) = true.
Proof.
  revert n. induction l as [|a l IH]; intros [|n] H; simpl in *; auto.
  apply andb_true_iff in H. destruct H as [Ha Hl].
  rewrite Ha. simpl. apply IH. exact Hl.
Qed.

(** The state of the loop after a reject that no sync preceded. *)
Lemma readRoutine_rejected pre r post :
  forallb passive pre = true ->
  readRoutine (pre ++ FrReject r :: post) =
  {| loop_state := StateDisconnected; signal := Some (Some r); running := false |}.
Proof.
  intros Hpre. unfold readRoutine. rewrite fold_left_app.
  rewrite (readRoutine_passive pre) by exact Hpre. simpl.
  apply readRoutine_stopped. reflexivity.
Qed.

(** At no point of such a run is the state Synced. *)
Lemma readRoutine_never_synced pre r post n :
  forallb passive pre = true ->
  loop_state (readRoutine (firstn n (pre ++ FrReject r :: post))) <> StateSynced.
Proof.
  intros Hpre. unfold readRoutine.
  rewrite firstn_app, fold_left_app.
  rewrite (readRoutine_passive (firstn n pre))
    by (apply forallb_firstn; exact Hpre).
  destruct (n - List.length pre)%nat as [|k]; simpl.
  - discriminate.
  - rewrite readRoutine_stopped by reflexivity. simpl. discriminate.
Qed.

(** C1. When the read loop meets a reject frame before any server-sync
    frame and hands the rejection over on [client.connect], and the select
    takes that case, [DialWithDialer] returns a nil client with that
    [RejectError], the transport has been closed, and at no point of the
    run of the loop is the connection state [StateSynced]. *)
Theorem DialWithDialer_rejected env dialer addr tlsConfig cfg conn pre r post :
  tlsDial env dialer "tcp" addr tlsConfig = inl conn ->
  forallb passive pre = true ->
  offered env = signal (readRoutine (pre ++ FrReject r :: post)) ->
  deadline dialer (now env) = 0 \/ pick env = PickConnect ->
  fst (DialWithDialer env dialer addr (Some cfg) tlsConfig []) =
    Returned (None, Some (ErrReject r)) /\
  In EvConnClose (snd (DialWithDialer env dialer addr (Some cfg) tlsConfig [])) /\
  state (newClient conn (Some cfg)) <> StateSynced /\
  forall n,
    loop_state (readRoutine (firstn n (pre ++ FrReject r :: post))) <> StateSynced.
Proof.
  intros Hdial Hpre Hoff Hrace.
  rewrite readRoutine_rejected in Hoff by exact Hpre. simpl in Hoff.
  assert (Hrun : fst (DialWithDialer env dialer addr (Some cfg) tlsConfig []) =
                 Returned (None, Some (ErrReject r)) /\
                 In EvConnClose (snd (DialWithDialer env dialer addr (Some cfg) tlsConfig []))).
  { destruct (Z.eq_dec (deadline dialer (now env)) 0) as [Hz|Hnz].
    - rewrite (DialWithDialer_no_deadline _ _ _ _ _ _ Hdial Hz), Hoff. simpl.
      split; [reflexivity|]. intuition.
    - destruct Hrace as [Hz|Hpick]; [contradiction|].
      rewrite (DialWithDialer_deadline _ _ _ _ _ _ Hdial Hnz), Hoff, Hpick. simpl.
      split; [reflexivity|]. intuition. }
  destruct Hrun as [Hres Hclose].
  repeat split; try assumption.
  - discriminate.
  - intros n. apply readRoutine_never_synced. exact Hpre.
Qed.

Lemma DialWithDialer_rejected_witness :
  let env := exampleEnv (inl exampleConn) (Some (Some exampleReject)) PickConnect in
  let dialer := {| Timeout := 5000000000; Deadline := 0 |} in
  let frames := [FrVersion; FrPing] ++ FrReject exampleReject :: [FrServerSync] in
  fst (DialWithDialer env dialer "example.org:64738" (Some exampleConfig) None []) =
    Returned (None, Some (ErrReject exampleReject)) /\
  In EvConnClose
     (snd (DialWithDialer env dialer "example.org:64738" (Some exampleConfig) None [])) /\
  state (newClient exampleConn (Some exampleConfig)) <> StateSynced /\
  forall n, loop_state (readRoutine (firstn n frames)) <> StateSynced.
Proof.
  apply (DialWithDialer_rejected
           (exampleEnv (inl exampleConn) (Some (Some exampleReject)) PickConnect)
           {| Timeout := 5000000000; Deadline := 0 |}
           "example.org:64738" None exampleConfig exampleConn
           [FrVersion; FrPing] exampleReject [FrServerSync]).
  - reflexivity.
  - reflexivity.
  - reflexivity.
  - right. reflexivity.
Defined.

(** *** The effective deadline *)

Lemma deadline_earliest dialer start :
  0 < start ->
  (if time.IsZero (deadline dialer start) then None
   else Some (deadline dialer start)) = earliest (bounds dialer start).
Proof.
  intros Hstart. rewrite deadline_cases. unfold bounds, time.IsZero.
  destruct (Deadline dialer =? 0) eqn:HD;
    destruct (0 <? Timeout dialer) eqn:HT; simpl.
  - apply Z.ltb_lt in HT.
    destruct (start + Timeout dialer =? 0) eqn:HZ; [|reflexivity].
    apply Z.eqb_eq in HZ. lia.
  - reflexivity.
  - apply Z.ltb_lt in HT. apply Z.eqb_neq in HD.
    destruct (Z.min (Deadline dialer) (start + Timeout dialer) =? 0) eqn:HZ;
      [|reflexivity].
    apply Z.eqb_eq in HZ. lia.
  - rewrite HD. reflexivity.
Qed.

(** C2. The deadline [DialWithDialer] computes is the earliest of the
    dialer's absolute deadline and the start time plus a positive timeout.
    With neither set no timer is armed and the call waits on the connect
    outcome alone, for ever if none comes.  With a deadline, when the timer
    wins the select, the transport is closed and the call returns a nil
    client with the timeout error, which no rejection error equals. *)
Theorem DialWithDialer_deadline_race env dialer addr tlsConfig cfg conn :
  0 < now env ->
  tlsDial env dialer "tcp" addr tlsConfig = inl conn ->
  let d := deadline dialer (now env) in
  (if time.IsZero d then None else Some d) = earliest (bounds dialer (now env)) /\
  (bounds dialer (now env) = [] ->
   DialWithDialer env dialer addr (Some cfg) tlsConfig [] =
   match offered env with
   | None => (Blocked, handshakeLog env addr cfg)
   | Some None =>
     (Returned (Some (newClient conn (Some cfg)), None), handshakeLog env addr cfg)
   | Some (Some r) =>
     (Returned (None, Some (ErrReject r)), handshakeLog env addr cfg ++ [EvConnClose])
   end) /\
  (bounds dialer (now env) <> [] ->
   offered env = None \/ pick env = PickTimeout ->
   DialWithDialer env dialer addr (Some cfg) tlsConfig [] =
   (Returned (None, Some ErrSyncTimeout),
    handshakeLog env addr cfg ++
    [EvNewTimer (time.Sub d (now env)); EvConnClose; EvTimerStop])) /\
  (forall r, ErrSyncTimeout <> ErrReject r).
Proof.
  intros Hnow Hdial d.
  pose proof (deadline_earliest dialer (now env) Hnow) as Hd. fold d in Hd.
  split; [exact Hd|]. split; [|split].
  - intros Hnone. rewrite Hnone in Hd. simpl in Hd.
    unfold time.IsZero in Hd. destruct (d =? 0) eqn:Hz; [|discriminate].
    apply Z.eqb_eq in Hz.
    apply (DialWithDialer_no_deadline env dialer addr tlsConfig cfg conn Hdial Hz).
  - intros Hsome Hrace.
    assert (Hnz : d <> 0).
    { unfold time.IsZero in Hd. destruct (d =? 0) eqn:Hz.
      - destruct (bounds dialer (now env)); [congruence|discriminate].
      - apply Z.eqb_neq. exact Hz. }
    rewrite (DialWithDialer_deadline env dialer addr tlsConfig cfg conn Hdial Hnz).
    fold d. rewrite <- app_assoc. simpl.
    destruct Hrace as [Hoff|Hpick].
    + rewrite Hoff. reflexivity.
    + rewrite Hpick. destruct (offered env) as [[r|]|]; reflexivity.
  - intros r. discriminate.
Qed.

Lemma DialWithDialer_deadline_race_witness :
  let env := exampleEnv (inl exampleConn) None PickConnect in
  let dialer := {| Timeout := 5000000000; Deadline := 63900000003000000000 |} in
  deadline dialer (now env) = 63900000003000000000 /\
  DialWithDialer env dialer "example.org:64738" (Some exampleConfig) None [] =
  (Returned (None, Some ErrSyncTimeout),
   handshakeLog env "example.org:64738" exampleConfig ++
   [EvNewTimer 3000000000; EvConnClose; EvTimerStop]).
Proof.
  intros env dialer.
  destruct (DialWithDialer_deadline_race env dialer "example.org:64738"
              None exampleConfig exampleConn) as (_ & _ & Htimeout & _).
  - reflexivity.
  - reflexivity.
  - split; [reflexivity|]. apply Htimeout.
    + discriminate.
    + left. reflexivity.
Defined.

(** *** The state accessor *)

(** C3. [Client.State] returns the state word as it is: on the client that
    [DialWithDialer] has just made, and that the read routine already
    holds, it returns [StateConnected]. *)
Theorem State_returns_StateConnected conn config :
  Client_State (newClient conn config) = StateConnected.
Proof. reflexivity. Qed.

(** *** Transport failure, the handshake and a nil configuration *)

(** C8. When the transport cannot be opened, [DialWithDialer] returns nil
    and that error, and the dial is all it has done: no routine was started
    and nothing was written. *)
Theorem DialWithDialer_dial_error env dialer addr tlsConfig config msg :
  tlsDial env dialer "tcp" addr tlsConfig = inr msg ->
  DialWithDialer env dialer addr config tlsConfig [] =
    (Returned (None, Some (ErrDial msg)), [EvDial "tcp" addr]) /\
  let log := snd (DialWithDialer env dialer addr config tlsConfig []) in
  ~ In EvGoReadRoutine log /\ ~ In EvGoPingRoutine log /\ writes log = [].
Proof.
  intros Hdial.
  assert (H : DialWithDialer env dialer addr config tlsConfig [] =
              (Returned (None, Some (ErrDial msg)), [EvDial "tcp" addr])).
  { dial_unfold. rewrite Hdial. reflexivity. }
  split; [exact H|]. rewrite H. simpl.
  repeat split; try reflexivity; intros [E|[]]; discriminate.
Qed.

Lemma DialWithDialer_dial_error_witness :
  DialWithDialer (exampleEnv (inr "connection refused") None PickConnect)
                 {| Timeout := 0; Deadline := 0 |} "example.org:64738"
                 (Some exampleConfig) None [] =
  (Returned (None, Some (ErrDial "connection refused")),
   [EvDial "tcp" "example.org:64738"]).
Proof.
  apply (DialWithDialer_dial_error
           (exampleEnv (inr "connection refused") None PickConnect)
           {| Timeout := 0; Deadline := 0 |} "example.org:64738"
           None (Some exampleConfig) "connection refused").
  reflexivity.
Defined.

(** The log of a call that got a connection starts with the handshake. *)
Lemma DialWithDialer_log env dialer addr tlsConfig cfg conn :
  tlsDial env dialer "tcp" addr tlsConfig = inl conn ->
  exists rest,
    snd (DialWithDialer env dialer addr (Some cfg) tlsConfig []) =
      handshakeLog env addr cfg ++ rest /\
    writes rest = [].
Proof.
  intros Hdial.
  destruct (Z.eq_dec (deadline dialer (now env)) 0) as [Hz|Hnz].
  - rewrite (DialWithDialer_no_deadline _ _ _ _ _ _ Hdial Hz).
    destruct (offered env) as [[r|]|]; simpl.
    + exists [EvConnClose]. split; reflexivity.
    + exists []. split; reflexivity.
    + exists []. split; reflexivity.
  - rewrite (DialWithDialer_deadline _ _ _ _ _ _ Hdial Hnz).
    destruct (offered env) as [[r|]|], (pick env); simpl;
      eexists; (split; [reflexivity|reflexivity]).
Qed.

(** C9. In a connection attempt the messages written to the transport are
    the Version message and then the Authenticate message, and the
    Authenticate message carries the configured user name and password, the
    flag telling whether the Opus codec is registered, and the configured
    tokens. *)
Theorem DialWithDialer_writes env dialer addr tlsConfig cfg conn :
  tlsDial env dialer "tcp" addr tlsConfig = inl conn ->
  writes (snd (DialWithDialer env dialer addr (Some cfg) tlsConfig [])) =
  [ MsgVersion (versionPacket env (Some cfg));
    MsgAuthenticate
      {| MumbleProto.Username := Some (Username cfg);
         MumbleProto.Password := Some (Password cfg);
         MumbleProto.Tokens := Tokens cfg;
         MumbleProto.CeltVersions := [];
         MumbleProto.Opus := Some (opusRegistered env) |} ].
Proof.
  intros Hdial.
  destruct (DialWithDialer_log env dialer addr tlsConfig cfg conn Hdial)
    as (rest & Hlog & Hrest).
  rewrite Hlog. simpl. rewrite Hrest. reflexivity.
Qed.

Lemma DialWithDialer_writes_witness :
  writes (snd (DialWithDialer
                 (exampleEnv (inl exampleConn) (Some None) PickConnect)
                 {| Timeout := 0; Deadline := 0 |} "example.org:64738"
                 (Some exampleConfig) None [])) =
  [ MsgVersion {| MumbleProto.Version_ := Some 66304;
                  MumbleProto.Release := Some "gumble";
                  MumbleProto.Os := Some "linux";
                  MumbleProto.OsVersion := Some "amd64" |};
    MsgAuthenticate
      {| MumbleProto.Username := Some "bot";
         MumbleProto.Password := Some "secret";
         MumbleProto.Tokens := ["lobby"; "staff"];
         MumbleProto.CeltVersions := [];
         MumbleProto.Opus := Some true |} ].
Proof.
  apply (DialWithDialer_writes
           (exampleEnv (inl exampleConn) (Some None) PickConnect)
           {| Timeout := 0; Deadline := 0 |} "example.org:64738"
           None exampleConfig exampleConn).
  reflexivity.
Defined.

(** C10. The override block accepts a nil configuration and leaves the
    defaults, but the Authenticate literal dereferences it: with a nil
    configuration the call panics when the transport is open and the read
    routine runs, before anything is written, and the transport is not
    closed. *)
Theorem DialWithDialer_nil_config env dialer addr tlsConfig conn :
  tlsDial env dialer "tcp" addr tlsConfig = inl conn ->
  versionFields env None = ("gumble", GOOS env, GOARCH env, wrap32 ClientVersion) /\
  DialWithDialer env dialer addr None tlsConfig [] =
    (Panicked, [EvDial "tcp" addr; EvGoReadRoutine]).
Proof.
  intros Hdial. split; [reflexivity|].
  dial_unfold. rewrite Hdial. reflexivity.
Qed.

Lemma DialWithDialer_nil_config_witness :
  DialWithDialer (exampleEnv (inl exampleConn) (Some None) PickConnect)
                 {| Timeout := 0; Deadline := 0 |} "example.org:64738" None None [] =
  (Panicked, [EvDial "tcp" "example.org:64738"; EvGoReadRoutine]).
Proof.
  apply (DialWithDialer_nil_config
           (exampleEnv (inl exampleConn) (Some None) PickConnect)
           {| Timeout := 0; Deadline := 0 |} "example.org:64738" None exampleConn).
  reflexivity.
Defined.

(** ** The Version message *)

Lemma wrap32_ClientVersion : wrap32 ClientVersion = ClientVersion.
Proof. reflexivity. Qed.

Lemma versionFields_override env cfg vo :
  Config_VersionOverride cfg = Some vo ->
  versionFields env (Some cfg) =
  ( (if (Release vo =? EmptyString)%string then "gumble" else Release vo),
    (if (OS vo =? EmptyString)%string then GOOS env else OS vo),
    (if (OSVersion vo =? EmptyString)%string then GOARCH env else OSVersion vo),
    match VersionUint32 vo with
    | Some v => v
    | None =>
      if (Semver vo =? EmptyString)%string then ClientVersion
      else match packSemver (Semver vo) with
           | (packed, None) => packed
           | (_, Some _) => ClientVersion
           end
    end ).
Proof.
  intros Hvo. unfold versionFields. rewrite Hvo, wrap32_ClientVersion.
  destruct (Release vo =? EmptyString)%string, (OS vo =? EmptyString)%string,
    (OSVersion vo =? EmptyString)%string, (VersionUint32 vo), (Semver vo =? EmptyString)%string;
    reflexivity.
Qed.

(** C6. Every field of the Version message is resolved from its own
    override field: a non-empty [Release], [OS] or [OSVersion] replaces the
    default of that field alone; the version word is [VersionUint32] as
    given when that is not nil, else the packed [Semver] when it packs,
    else [ClientVersion].  With only [OS] set the message has that [OS] and
    the release "gumble", the host architecture and [ClientVersion]. *)
Theorem versionPacket_fields env cfg vo :
  Config_VersionOverride cfg = Some vo ->
  let p := versionPacket env (Some cfg) in
  MumbleProto.Release p =
    Some (if (Release vo =? EmptyString)%string then "gumble" else Release vo) /\
  MumbleProto.Os p =
    Some (if (OS vo =? EmptyString)%string then GOOS env else OS vo) /\
  MumbleProto.OsVersion p =
    Some (if (OSVersion vo =? EmptyString)%string then GOARCH env else OSVersion vo) /\
  (forall v, VersionUint32 vo = Some v -> MumbleProto.Version_ p = Some v) /\
  (forall w, VersionUint32 vo = None -> Semver vo <> EmptyString ->
             packSemver (Semver vo) = (w, None) ->
             MumbleProto.Version_ p = Some w) /\
  (VersionUint32 vo = None ->
   Semver vo = EmptyString \/ snd (packSemver (Semver vo)) <> None ->
   MumbleProto.Version_ p = Some ClientVersion) /\
  (Release vo = EmptyString -> OS vo <> EmptyString -> OSVersion vo = EmptyString -> Semver vo = EmptyString ->
   VersionUint32 vo = None ->
   p = {| MumbleProto.Version_ := Some ClientVersion;
          MumbleProto.Release := Some "gumble";
          MumbleProto.Os := Some (OS vo);
          MumbleProto.OsVersion := Some (GOARCH env) |}).
Proof.
  intros Hvo p. subst p. unfold versionPacket.
  rewrite (versionFields_override env cfg vo Hvo). simpl.
  repeat split.
  - intros v Hv. rewrite Hv. reflexivity.
  - intros w Hnil Hne Hpack. rewrite Hnil, Hpack.
    apply String.eqb_neq in Hne. rewrite Hne. reflexivity.
  - intros Hnil [Hempty|Herr]; rewrite Hnil.
    + rewrite Hempty. reflexivity.
    + destruct (Semver vo =? EmptyString)%string; [reflexivity|].
      destruct (packSemver (Semver vo)) as [w [e|]]; simpl in *;
        [reflexivity|congruence].
  - intros HR HO HV HS HU. rewrite HR, HV, HS, HU. simpl.
    apply String.eqb_neq in HO. rewrite HO. reflexivity.
Qed.

Lemma versionPacket_fields_witness :
  versionPacket (exampleEnv (inl exampleConn) None PickConnect)
    (Some (configWith onlyOS)) =
  {| MumbleProto.Version_ := Some 0x00010300;
     MumbleProto.Release := Some "gumble";
     MumbleProto.Os := Some "windows";
     MumbleProto.OsVersion := Some "amd64" |}.
Proof.
  apply (versionPacket_fields
           (exampleEnv (inl exampleConn) None PickConnect)
           (configWith onlyOS)
           onlyOS); try reflexivity.
  discriminate.
Defined.

(** ** The Ping Sample Window *)

Section PingWindowProperties.

Variable float32 : Type.
Variable zero : float32.
Variables add sub mul div : float32 -> float32 -> float32.
Variable of_count : nat -> float32.

Local Abbreviation insert := (insertSample float32 zero add sub mul div of_count).
Local Abbreviation inserted := (insertAll float32 zero add sub mul div of_count).

Lemma insertAll_snoc l s : inserted (l ++ [s]) = insert (inserted l) s.
Proof.
  unfold inserted, insertAll. rewrite fold_left_app. reflexivity.
Qed.

(** The window holds the last [pingWindowSize] samples that were
    inserted. *)
Lemma samples_insertAll l :
  samples (inserted l) = skipn (List.length l - pingWindowSize) l.
Proof.
  induction l as [|s l IH] using rev_ind.
  - reflexivity.
  - rewrite insertAll_snoc. unfold insert, insertSample. simpl.
    rewrite IH. rewrite length_skipn, length_app. simpl.
    unfold pingWindowSize in *.
    destruct (List.length l - (List.length l - 12) <? 12)%nat
      eqn:Hlt.
    + apply Nat.ltb_lt in Hlt.
      replace (List.length l - 12)%nat with 0%nat by lia.
      replace (List.length l + 1 - 12)%nat with 0%nat by lia.
      reflexivity.
    + apply Nat.ltb_ge in Hlt.
      replace (List.length l + 1 - 12)%nat
        with (S (List.length l - 12)) by lia.
      rewrite skipn_app.
      replace (S (List.length l - 12) - List.length l)%nat
        with 0%nat by lia.
      simpl. f_equal.
      generalize (List.length l - 12)%nat as k.
      clear. induction l as [|a l IH]; intros [|k]; simpl; auto.
Qed.

Lemma pingAvg_insertAll l s :
  pingAvg (inserted (l ++ [s])) =
  mean float32 zero add div of_count (samples (inserted (l ++ [s]))).
Proof. rewrite insertAll_snoc. reflexivity. Qed.

End PingWindowProperties.

(** C7. The window never holds more than 12 samples; after the samples
    s1 .. s15 have been inserted in order it holds s4 .. s15, oldest
    first, and the published mean is the sum of those twelve divided by
    their count. *)
Theorem ping_window_last_twelve
        (float32 : Type) (zero : float32)
        (add sub mul div : float32 -> float32 -> float32)
        (of_count : nat -> float32) :
  (forall l,
      (List.length (samples (insertAll float32 zero add sub mul div of_count l))
       <= pingWindowSize)%nat) /\
  (forall s1 s2 s3 s4 s5 s6 s7 s8 s9 s10 s11 s12 s13 s14 s15,
      let w := insertAll float32 zero add sub mul div of_count
                         [s1; s2; s3; s4; s5; s6; s7; s8; s9; s10; s11; s12;
                          s13; s14; s15] in
      let last12 := [s4; s5; s6; s7; s8; s9; s10; s11; s12; s13; s14; s15] in
      samples w = last12 /\
      pingAvg w = div (fold_left add last12 zero) (of_count 12%nat)).
Proof.
  split.
  - intros l. rewrite samples_insertAll, length_skipn.
    unfold pingWindowSize. lia.
  - intros. split; reflexivity.
Qed.

(** The window over exact rationals: the replies 1 .. 15 leave 4 .. 15, whose
    mean is 19/2. *)
Example ping_window_rationals :
  let w := insertAll Q 0%Q Qplus Qminus Qmult Qdiv
                     (fun n => inject_Z (Z.of_nat n))
                     (map inject_Z [1; 2; 3; 4; 5; 6; 7; 8; 9; 10; 11; 12; 13; 14; 15]) in
  samples w = map inject_Z [4; 5; 6; 7; 8; 9; 10; 11; 12; 13; 14; 15] /\
  Qeq (pingAvg w) (19 # 2) /\ received w = 15.
Proof. vm_compute. repeat split; reflexivity. Qed.

(** ** [packSemver] *)

(** *** Bytes and runes of numerals *)

Lemma bytes_app s1 s2 : bytes (s1 ++ s2)%string = bytes s1 ++ bytes s2.
Proof. induction s1 as [|a s1 IH]; simpl; [reflexivity|]. rewrite IH. reflexivity. Qed.

Lemma all_digits_bytes s :
  all_digits s = true -> forallb strconv.is_digit (bytes s) = true.
Proof.
  induction s as [|a s IH]; simpl; [reflexivity|].
  intros H. apply andb_true_iff in H. destruct H as [Ha Hs].
  rewrite Ha, IH by exact Hs. reflexivity.
Qed.

Lemma numeral_bytes s :
  numeral s = true ->
  bytes s <> [] /\ forallb strconv.is_digit (bytes s) = true.
Proof.
  unfold numeral. intros H. apply andb_true_iff in H. destruct H as [Hne Hd].
  split; [|apply all_digits_bytes; exact Hd].
  destruct s; simpl in *; discriminate.
Qed.

Lemma is_digit_range c : strconv.is_digit c = true -> 48 <= c <= 57.
Proof. unfold strconv.is_digit. lia. Qed.

Lemma decode_ascii b rest :
  0 <= b < 128 -> utf8.decode (b :: rest) = b :: utf8.decode rest.
Proof.
  intros Hb. simpl. unfold utf8.RuneSelf.
  destruct (b <? 128) eqn:E; [reflexivity|]. apply Z.ltb_ge in E. lia.
Qed.

Lemma decode_digits ds rest :
  forallb strconv.is_digit ds = true ->
  utf8.decode (ds ++ rest) = ds ++ utf8.decode rest.
Proof.
  induction ds as [|d ds IH]; intros H; [reflexivity|].
  simpl in H. apply andb_true_iff in H. destruct H as [Hd Hds].
  apply is_digit_range in Hd.
  rewrite <- app_comm_cons, decode_ascii by lia.
  rewrite IH by exact Hds. reflexivity.
Qed.

(** *** [ParseUint] on a run of digits *)

Lemma digits_value_ge acc ds :
  forallb strconv.is_digit ds = true -> 0 <= acc -> acc <= digits_value acc ds.
Proof.
  revert acc. induction ds as [|d ds IH]; intros acc H Hacc;
    cbn [digits_value forallb] in *; [lia|].
  apply andb_true_iff in H. destruct H as [Hd Hds].
  apply is_digit_range in Hd.
  specialize (IH (acc * 10 + (d - 48)) Hds). lia.
Qed.

Lemma parse_loop_digits n ds :
  forallb strconv.is_digit ds = true -> 0 <= n < 2 ^ 64 ->
  strconv.parse_loop n ds =
  if digits_value n ds <? 2 ^ 64 then inl (digits_value n ds)
  else inr strconv.ErrRange.
Proof.
  change (2 ^ 64) with 18446744073709551616.
  revert n. induction ds as [|d ds IH]; intros n H Hn;
    cbn [strconv.parse_loop digits_value forallb] in *.
  - destruct (n <? 18446744073709551616) eqn:E; [reflexivity|].
    apply Z.ltb_ge in E. lia.
  - apply andb_true_iff in H. destruct H as [Hd Hds]. rewrite Hd.
    apply is_digit_range in Hd.
    pose proof (digits_value_ge (n * 10 + (d - 48)) ds Hds) as Hge.
    change strconv.cutoff with 1844674407370955162.
    change strconv.maxUint64 with 18446744073709551615.
    unfold wrap64. change (2 ^ 64) with 18446744073709551616.
    destruct (1844674407370955162 <=? n) eqn:Hcut.
    + apply Z.leb_le in Hcut.
      destruct (digits_value (n * 10 + (d - 48)) ds <? 18446744073709551616) eqn:E;
        [|reflexivity].
      apply Z.ltb_lt in E. lia.
    + apply Z.leb_gt in Hcut.
      rewrite (Z.mod_small (n * 10)) by lia.
      destruct (Z_lt_dec (n * 10 + (d - 48)) 18446744073709551616) as [Hfit|Hover].
      * rewrite (Z.mod_small (n * 10 + (d - 48))) by lia.
        destruct (n * 10 + (d - 48) <? n * 10) eqn:E1;
          [apply Z.ltb_lt in E1; lia|].
        destruct (18446744073709551615 <? n * 10 + (d - 48)) eqn:E2;
          [apply Z.ltb_lt in E2; lia|].
        cbn [orb]. apply IH; [exact Hds|lia].
      * replace ((n * 10 + (d - 48)) mod 18446744073709551616)
          with (n * 10 + (d - 48) - 18446744073709551616).
        2:{ apply Z.mod_unique with (q := 1); lia. }
        destruct (n * 10 + (d - 48) - 18446744073709551616 <? n * 10) eqn:E1;
          [|apply Z.ltb_ge in E1; lia].
        cbn [orb].
        destruct (digits_value (n * 10 + (d - 48)) ds <? 18446744073709551616) eqn:E;
          [|reflexivity].
        apply Z.ltb_lt in E. lia.
Qed.

Lemma ParseUint_digits ds :
  ds <> [] -> forallb strconv.is_digit ds = true ->
  strconv.ParseUint ds =
  if digits_value 0 ds <? 2 ^ 64 then inl (digits_value 0 ds)
  else inr strconv.ErrRange.
Proof.
  intros Hne Hd. unfold strconv.ParseUint.
  destruct ds as [|d ds]; [congruence|].
  apply parse_loop_digits; [exact Hd|lia].
Qed.

(** *** Scanning a numeral *)

Lemma SkipSpace_digit d inp :
  strconv.is_digit d = true -> fmt.SkipSpace (d :: inp) = inr (tt, d :: inp).
Proof.
  intros Hd. apply is_digit_range in Hd.
  assert (Hcases : d = 48 \/ d = 49 \/ d = 50 \/ d = 51 \/ d = 52 \/
                   d = 53 \/ d = 54 \/ d = 55 \/ d = 56 \/ d = 57) by lia.
  repeat (destruct Hcases as [->|Hcases]; [reflexivity|]).
  subst d. reflexivity.
Qed.

Lemma accept_all_digits ds rest :
  forallb strconv.is_digit ds = true ->
  fmt.peek strconv.is_digit rest = false ->
  fmt.accept_all strconv.is_digit (ds ++ rest) = (ds, rest).
Proof.
  intros Hds Hrest. induction ds as [|d ds IH].
  - destruct rest as [|r rest]; [reflexivity|].
    cbn [fmt.peek] in Hrest. cbn [app fmt.accept_all].
    rewrite Hrest. reflexivity.
  - cbn [forallb] in Hds. apply andb_true_iff in Hds. destruct Hds as [Hd Hds].
    cbn [app fmt.accept_all]. rewrite Hd, IH by exact Hds. reflexivity.
Qed.

Lemma scanNumber_digits ds rest :
  ds <> [] ->
  forallb strconv.is_digit ds = true ->
  fmt.peek strconv.is_digit rest = false ->
  fmt.scanNumber strconv.is_digit (ds ++ rest) = inr (ds, rest).
Proof.
  intros Hne Hds Hrest. destruct ds as [|d ds]; [congruence|].
  cbn [forallb] in Hds. apply andb_true_iff in Hds. destruct Hds as [Hd Hds].
  unfold fmt.scanNumber, fmt.bind, fmt.notEOF, fmt.accept. cbn [app].
  rewrite Hd, accept_all_digits by assumption. reflexivity.
Qed.

Lemma SkipSpace_digits ds rest :
  ds <> [] -> forallb strconv.is_digit ds = true ->
  fmt.SkipSpace (ds ++ rest) = inr (tt, ds ++ rest).
Proof.
  intros Hne Hds. destruct ds as [|d ds]; [congruence|].
  cbn [forallb] in Hds. apply andb_true_iff in Hds.
  rewrite <- app_comm_cons. apply SkipSpace_digit. tauto.
Qed.

Lemma notEOF_digits ds rest :
  ds <> [] -> fmt.notEOF (ds ++ rest) = inr (tt, ds ++ rest).
Proof. intros Hne. destruct ds; [congruence|reflexivity]. Qed.

(** The check of [scanUint] that the value fits the operand. *)
Lemma fits_uint32 i :
  0 <= i < 2 ^ 64 ->
  (Z.shiftr (wrap64 (Z.shiftl i (64 - 32))) (64 - 32) =? i) = (i <? 2 ^ 32).
Proof.
  intros Hi. unfold wrap64. change (64 - 32) with 32.
  rewrite Z.shiftl_mul_pow2, Z.shiftr_div_pow2 by lia.
  change (2 ^ 64) with (2 ^ 32 * 2 ^ 32).
  rewrite Z.mul_mod_distr_r, Z.div_mul by lia.
  destruct (i <? 2 ^ 32) eqn:E.
  - apply Z.ltb_lt in E. rewrite Z.mod_small by lia. apply Z.eqb_refl.
  - apply Z.ltb_ge in E. apply Z.eqb_neq.
    pose proof (Z.mod_pos_bound i (2 ^ 32)). lia.
Qed.

Lemma scanUint_digits ds rest :
  ds <> [] ->
  forallb strconv.is_digit ds = true ->
  fmt.peek strconv.is_digit rest = false ->
  fmt.scanUint 32 (ds ++ rest) =
  if digits_value 0 ds <? 2 ^ 32 then inr (digits_value 0 ds, rest)
  else inl (overflowError (digits_value 0 ds)).
Proof.
  intros Hne Hds Hrest.
  pose proof (digits_value_ge 0 ds Hds (Z.le_refl 0)) as Hge.
  unfold fmt.scanUint, fmt.bind.
  rewrite SkipSpace_digits, notEOF_digits by assumption.
  rewrite scanNumber_digits by assumption.
  rewrite ParseUint_digits by assumption.
  unfold overflowError.
  destruct (digits_value 0 ds <? 2 ^ 64) eqn:E64.
  - apply Z.ltb_lt in E64. rewrite fits_uint32 by lia.
    destruct (digits_value 0 ds <? 2 ^ 32); reflexivity.
  - apply Z.ltb_ge in E64.
    destruct (digits_value 0 ds <? 2 ^ 32) eqn:E32; [|reflexivity].
    apply Z.ltb_lt in E32. lia.
Qed.

(** One verb of the format on a numeral. *)
Lemma doScanf_numeral ds rest format nargs np vals :
  ds <> [] ->
  forallb strconv.is_digit ds = true ->
  fmt.peek strconv.is_digit rest = false ->
  (np < nargs)%nat ->
  fmt.doScanf (fmt.Verb_d :: format) nargs np vals (ds ++ rest) =
  if digits_value 0 ds <? 2 ^ 32
  then fmt.doScanf format nargs (S np) (vals ++ [digits_value 0 ds]) rest
  else (np, vals, Some (overflowError (digits_value 0 ds))).
Proof.
  intros Hne Hds Hrest Hnp.
  pose proof (digits_value_ge 0 ds Hds (Z.le_refl 0)) as Hge.
  cbn [fmt.doScanf]. rewrite SkipSpace_digits by assumption.
  destruct (nargs <=? np)%nat eqn:E; [apply Nat.leb_le in E; lia|].
  rewrite scanUint_digits by assumption.
  destruct (digits_value 0 ds <? 2 ^ 32) eqn:E32; [|reflexivity].
  apply Z.ltb_lt in E32. unfold wrap32. rewrite Z.mod_small by lia.
  reflexivity.
Qed.

(** *** [Sscanf] on dotted numerals *)

Lemma doScanf_numeral_end ds format nargs np vals :
  ds <> [] ->
  forallb strconv.is_digit ds = true ->
  (np < nargs)%nat ->
  fmt.doScanf (fmt.Verb_d :: format) nargs np vals ds =
  if digits_value 0 ds <? 2 ^ 32
  then fmt.doScanf format nargs (S np) (vals ++ [digits_value 0 ds]) []
  else (np, vals, Some (overflowError (digits_value 0 ds))).
Proof.
  intros Hne Hds Hnp.
  rewrite <- (doScanf_numeral ds [] format nargs np vals Hne Hds eq_refl Hnp).
  rewrite app_nil_r. reflexivity.
Qed.

Lemma doScanf_literal c format nargs np vals rest :
  fmt.doScanf (fmt.Lit c :: format) nargs np vals (c :: rest) =
  fmt.doScanf format nargs np vals rest.
Proof. cbn [fmt.doScanf]. rewrite Z.eqb_refl. reflexivity. Qed.

Lemma dot_not_digit rest : fmt.peek strconv.is_digit (46 :: rest) = false.
Proof. reflexivity. Qed.

(** The side conditions of [doScanf_numeral]. *)
Ltac side := first [assumption | reflexivity | apply dot_not_digit | lia].

Lemma runes_numeral s :
  numeral s = true -> runes s = bytes s.
Proof.
  intros H. apply numeral_bytes in H. destruct H as [_ Hd].
  unfold runes. rewrite <- (app_nil_r (bytes s)) at 1.
  rewrite decode_digits by exact Hd. apply app_nil_r.
Qed.

Lemma runes_numeral_dot s rest :
  numeral s = true ->
  runes (s ++ "." ++ rest) = bytes s ++ 46 :: runes rest.
Proof.
  intros H. apply numeral_bytes in H. destruct H as [_ Hd].
  unfold runes. rewrite bytes_app, decode_digits by exact Hd.
  reflexivity.
Qed.

(** The scan of one numeral: nothing is stored and the error is set. *)
Lemma Sscanf_one M :
  numeral M = true ->
  snd (fmt.Sscanf M semverFormat 3) <> None.
Proof.
  intros HM. unfold fmt.Sscanf, semverFormat.
  rewrite runes_numeral by exact HM.
  apply numeral_bytes in HM. destruct HM as [Hne Hd].
  rewrite doScanf_numeral_end by side.
  destruct (digits_value 0 (bytes M) <? 2 ^ 32); cbn [fmt.doScanf];
    discriminate.
Qed.

Lemma Sscanf_two M m :
  numeral M = true -> numeral m = true ->
  snd (fmt.Sscanf (M ++ "." ++ m) semverFormat 3) <> None.
Proof.
  intros HM Hm. unfold fmt.Sscanf, semverFormat.
  rewrite runes_numeral_dot, runes_numeral by assumption.
  apply numeral_bytes in HM. destruct HM as [HneM HdM].
  apply numeral_bytes in Hm. destruct Hm as [Hnem Hdm].
  rewrite doScanf_numeral by side.
  destruct (digits_value 0 (bytes M) <? 2 ^ 32); [|discriminate].
  rewrite doScanf_literal.
  rewrite doScanf_numeral_end by side.
  destruct (digits_value 0 (bytes m) <? 2 ^ 32); cbn [fmt.doScanf];
    discriminate.
Qed.

Lemma Sscanf_three M m p :
  numeral M = true -> numeral m = true -> numeral p = true ->
  fmt.Sscanf (M ++ "." ++ m ++ "." ++ p) semverFormat 3 =
  if value M <? 2 ^ 32 then
    if value m <? 2 ^ 32 then
      if value p <? 2 ^ 32 then (3%nat, [value M; value m; value p], None)
      else (2%nat, [value M; value m], Some (overflowError (value p)))
    else (1%nat, [value M], Some (overflowError (value m)))
  else (0%nat, [], Some (overflowError (value M))).
Proof.
  intros HM Hm Hp. unfold fmt.Sscanf, semverFormat, value.
  rewrite !runes_numeral_dot, runes_numeral by assumption.
  apply numeral_bytes in HM. destruct HM as [HneM HdM].
  apply numeral_bytes in Hm. destruct Hm as [Hnem Hdm].
  apply numeral_bytes in Hp. destruct Hp as [Hnep Hdp].
  rewrite doScanf_numeral by side.
  destruct (digits_value 0 (bytes M) <? 2 ^ 32); [|reflexivity].
  rewrite doScanf_literal.
  rewrite doScanf_numeral by side.
  destruct (digits_value 0 (bytes m) <? 2 ^ 32); [|reflexivity].
  rewrite doScanf_literal.
  rewrite doScanf_numeral_end by side.
  destruct (digits_value 0 (bytes p) <? 2 ^ 32); reflexivity.
Qed.

Lemma value_nonneg s : numeral s = true -> 0 <= value s.
Proof.
  intros H. apply numeral_bytes in H. destruct H as [_ Hd].
  apply (digits_value_ge 0 (bytes s) Hd). lia.
Qed.

(** *** Packing without wrap-around *)

Lemma lor_bound a b n :
  0 <= n -> 0 <= a < 2 ^ n -> 0 <= b < 2 ^ n -> 0 <= Z.lor a b < 2 ^ n.
Proof.
  intros Hn Ha Hb.
  assert (Hnn : 0 <= Z.lor a b) by (apply Z.lor_nonneg; lia).
  split; [exact Hnn|].
  destruct (Z.eq_dec (Z.lor a b) 0) as [E|E]; [rewrite E; lia|].
  apply Z.log2_lt_pow2; [lia|].
  rewrite Z.log2_lor by lia.
  assert (Hlog : forall x, 0 <= x < 2 ^ n -> 0 < n -> Z.log2 x < n).
  { intros x Hx Hpos. destruct (Z.eq_dec x 0) as [->|Hx0]; [simpl; lia|].
    apply Z.log2_lt_pow2; lia. }
  assert (0 < n).
  { destruct (Z.eq_dec n 0) as [->|]; [|lia].
    simpl in Ha, Hb. assert (a = 0) by lia. assert (b = 0) by lia.
    subst. simpl in E. congruence. }
  pose proof (Hlog a Ha). pose proof (Hlog b Hb). lia.
Qed.

Lemma pack_no_wrap maj min pat :
  0 <= maj <= 0xFFFF -> 0 <= min <= 0xFF -> 0 <= pat <= 0xFF ->
  or32 (or32 (shl32 maj 16) (shl32 min 8)) pat = pack maj min pat.
Proof.
  intros HM Hm Hp. unfold or32, shl32, wrap32, pack.
  assert (H1 : 0 <= Z.shiftl maj 16 < 2 ^ 32).
  { rewrite Z.shiftl_mul_pow2 by lia. change (2 ^ 16) with 65536.
    change (2 ^ 32) with 4294967296. lia. }
  assert (H2 : 0 <= Z.shiftl min 8 < 2 ^ 32).
  { rewrite Z.shiftl_mul_pow2 by lia. change (2 ^ 8) with 256.
    change (2 ^ 32) with 4294967296. lia. }
  assert (H3 : 0 <= pat < 2 ^ 32) by (change (2 ^ 32) with 4294967296; lia).
  rewrite (Z.mod_small (Z.shiftl maj 16)) by exact H1.
  rewrite (Z.mod_small (Z.shiftl min 8)) by exact H2.
  pose proof (lor_bound _ _ 32 ltac:(lia) H1 H2) as H12.
  rewrite (Z.mod_small (Z.lor (Z.shiftl maj 16) (Z.shiftl min 8))) by exact H12.
  apply Z.mod_small. apply lor_bound; [lia|exact H12|exact H3].
Qed.

Lemma shiftr_small a n : 0 <= n -> 0 <= a < 2 ^ n -> Z.shiftr a n = 0.
Proof. intros Hn Ha. rewrite Z.shiftr_div_pow2 by lia. apply Z.div_small. lia. Qed.

Lemma land_low_shiftl a k :
  8 <= k -> Z.land (Z.shiftl a k) 0xFF = 0.
Proof.
  intros Hk. change 0xFF with (Z.ones 8).
  rewrite Z.land_ones, Z.shiftl_mul_pow2 by lia.
  replace k with ((k - 8) + 8) by lia.
  rewrite Z.pow_add_r, Z.mul_assoc by lia.
  apply Z.mod_mul. lia.
Qed.

Lemma land_low_small a : 0 <= a <= 0xFF -> Z.land a 0xFF = a.
Proof.
  intros Ha. change (Z.land a 0xFF) with (Z.land a (Z.ones 8)).
  rewrite Z.land_ones by lia. apply Z.mod_small.
  change (2 ^ 8) with 256. lia.
Qed.

Lemma unpack_pack maj min pat :
  0 <= maj <= 0xFFFF -> 0 <= min <= 0xFF -> 0 <= pat <= 0xFF ->
  unpack (pack maj min pat) = (maj, min, pat).
Proof.
  intros HM Hm Hp. unfold unpack, pack.
  assert (Hm8 : Z.shiftr min 8 = 0)
    by (apply shiftr_small; [lia|change (2 ^ 8) with 256; lia]).
  assert (Hp8 : Z.shiftr pat 8 = 0)
    by (apply shiftr_small; [lia|change (2 ^ 8) with 256; lia]).
  assert (Hp16 : Z.shiftr pat 16 = 0)
    by (apply shiftr_small; [lia|change (2 ^ 16) with 65536; lia]).
  f_equal; [f_equal|].
  - rewrite !Z.shiftr_lor, Hp16.
    rewrite (Z.shiftr_shiftl_l maj 16 16) by lia.
    rewrite (Z.shiftr_shiftl_r min 8 16) by lia.
    change (16 - 16) with 0. change (16 - 8) with 8.
    rewrite Hm8, Z.shiftl_0_r, !Z.lor_0_r. reflexivity.
  - rewrite !Z.shiftr_lor, Hp8.
    rewrite (Z.shiftr_shiftl_l maj 16 8) by lia.
    rewrite (Z.shiftr_shiftl_l min 8 8) by lia.
    change (16 - 8) with 8. change (8 - 8) with 0.
    rewrite Z.shiftl_0_r, Z.lor_0_r, Z.land_lor_distr_l.
    rewrite land_low_shiftl by lia. rewrite land_low_small by exact Hm.
    reflexivity.
  - rewrite !Z.land_lor_distr_l.
    rewrite !land_low_shiftl by lia. rewrite land_low_small by exact Hp.
    reflexivity.
Qed.

(** *** [packSemver] on dotted numerals *)

Lemma packSemver_scan_error s :
  snd (fmt.Sscanf s semverFormat 3) <> None ->
  packSemver s = (0, Some (ErrInvalidSemver s)).
Proof.
  unfold packSemver.
  destruct (fmt.Sscanf s semverFormat 3) as [[n vals] [e|]]; simpl.
  - reflexivity.
  - congruence.
Qed.

Lemma packSemver_three M m p :
  numeral M = true -> numeral m = true -> numeral p = true ->
  packSemver (M ++ "." ++ m ++ "." ++ p) =
  if (value M <=? 0xFFFF) && (value m <=? 0xFF) && (value p <=? 0xFF)
  then (pack (value M) (value m) (value p), None)
  else (0, Some (ErrInvalidSemver (M ++ "." ++ m ++ "." ++ p))).
Proof.
  intros HM Hm Hp.
  pose proof (value_nonneg M HM) as H0M.
  pose proof (value_nonneg m Hm) as H0m.
  pose proof (value_nonneg p Hp) as H0p.
  destruct ((value M <=? 0xFFFF) && (value m <=? 0xFF) && (value p <=? 0xFF))
    eqn:Hok.
  - apply andb_true_iff in Hok. destruct Hok as [Hok Hbp].
    apply andb_true_iff in Hok. destruct Hok as [HbM Hbm].
    apply Z.leb_le in HbM, Hbm, Hbp.
    unfold packSemver. rewrite Sscanf_three by assumption.
    change (2 ^ 32) with 4294967296.
    destruct (value M <? 4294967296) eqn:EM; [|apply Z.ltb_ge in EM; lia].
    destruct (value m <? 4294967296) eqn:Em; [|apply Z.ltb_ge in Em; lia].
    destruct (value p <? 4294967296) eqn:Ep; [|apply Z.ltb_ge in Ep; lia].
    cbn [nth Nat.eqb negb orb].
    destruct (0xFFFF <? value M) eqn:E1; [apply Z.ltb_lt in E1; lia|].
    destruct (0xFF <? value m) eqn:E2; [apply Z.ltb_lt in E2; lia|].
    destruct (0xFF <? value p) eqn:E3; [apply Z.ltb_lt in E3; lia|].
    cbn [orb]. rewrite pack_no_wrap by lia. reflexivity.
  - unfold packSemver. rewrite Sscanf_three by assumption.
    destruct (value M <? 2 ^ 32); [|reflexivity].
    destruct (value m <? 2 ^ 32); [|reflexivity].
    destruct (value p <? 2 ^ 32); [|reflexivity].
    cbn [nth Nat.eqb negb orb].
    destruct (0xFFFF <? value M) eqn:E1; [reflexivity|].
    destruct (0xFF <? value m) eqn:E2; [reflexivity|].
    destruct (0xFF <? value p) eqn:E3; [reflexivity|].
    apply Z.ltb_ge in E1, E2, E3.
    apply andb_false_iff in Hok. destruct Hok as [Hok|Hok].
    + apply andb_false_iff in Hok. destruct Hok as [Hok|Hok];
        apply Z.leb_gt in Hok; lia.
    + apply Z.leb_gt in Hok. lia.
Qed.

(** Text after the third number is not read, and blanks before a number
    are skipped. *)
Example packSemver_trailing_text : packSemver "1.2.3-rc1" = (0x00010203, None).
Proof. vm_compute. reflexivity. Qed.

Example packSemver_blanks : packSemver " 1. 2. 3" = (0x00010203, None).
Proof. vm_compute. reflexivity. Qed.

Example packSemver_signed : packSemver "+1.2.3" = (0, Some (ErrInvalidSemver "+1.2.3")).
Proof. vm_compute. reflexivity. Qed.

(** C4. For numerals MAJOR, MINOR and PATCH of at most 65535, 255 and 255,
    [packSemver] of "MAJOR.MINOR.PATCH" returns the word
    major<<16 | minor<<8 | patch and no error, and the shifts and masks of
    unpacking give the three numbers back; [packSemver "1.3.0"] is
    0x00010300. *)
Theorem packSemver_roundtrip M m p :
  numeral M = true -> numeral m = true -> numeral p = true ->
  value M <= 65535 -> value m <= 255 -> value p <= 255 ->
  let w := Z.lor (Z.lor (Z.shiftl (value M) 16) (Z.shiftl (value m) 8)) (value p) in
  packSemver (M ++ "." ++ m ++ "." ++ p) = (w, None) /\
  (Z.shiftr w 16, Z.land (Z.shiftr w 8) 0xFF, Z.land w 0xFF) =
    (value M, value m, value p) /\
  packSemver "1.3.0" = (0x00010300, None).
Proof.
  intros HM Hm Hp HbM Hbm Hbp w.
  pose proof (value_nonneg M HM) as H0M.
  pose proof (value_nonneg m Hm) as H0m.
  pose proof (value_nonneg p Hp) as H0p.
  split; [|split].
  - rewrite packSemver_three by assumption.
    destruct (value M <=? 0xFFFF) eqn:E1; [|apply Z.leb_gt in E1; lia].
    destruct (value m <=? 0xFF) eqn:E2; [|apply Z.leb_gt in E2; lia].
    destruct (value p <=? 0xFF) eqn:E3; [|apply Z.leb_gt in E3; lia].
    reflexivity.
  - apply (unpack_pack (value M) (value m) (value p)); lia.
  - vm_compute. reflexivity.
Qed.

Lemma packSemver_roundtrip_witness :
  packSemver "65535.255.255" = (0xFFFFFFFF, None) /\
  (Z.shiftr 0xFFFFFFFF 16, Z.land (Z.shiftr 0xFFFFFFFF 8) 0xFF,
   Z.land 0xFFFFFFFF 0xFF) = (65535, 255, 255).
Proof.
  destruct (packSemver_roundtrip "65535" "255" "255") as (Hpack & Hunpack & _);
    try reflexivity; try (vm_compute; discriminate).
  split; [exact Hpack|exact Hunpack].
Defined.

(** *** The fallback on a refused [Semver] *)

Lemma packSemver_violates_bound s :
  violates_bound s -> packSemver s = (0, Some (ErrInvalidSemver s)).
Proof.
  intros (M & m & p & HM & Hm & Hp & -> & Hbound).
  cbn [dotted]. rewrite packSemver_three by assumption.
  destruct (value M <=? 0xFFFF) eqn:E1; [|reflexivity].
  destruct (value m <=? 0xFF) eqn:E2; [|reflexivity].
  destruct (value p <=? 0xFF) eqn:E3; [|reflexivity].
  apply Z.leb_le in E1, E2, E3. lia.
Qed.

Lemma packSemver_fewer_than_three s :
  fewer_than_three s -> packSemver s = (0, Some (ErrInvalidSemver s)).
Proof.
  intros (parts & Hlen & Hnum & ->).
  destruct parts as [|M [|m [|p parts]]]; cbn [dotted].
  - reflexivity.
  - apply packSemver_scan_error, Sscanf_one.
    inversion Hnum; assumption.
  - apply packSemver_scan_error, Sscanf_two.
    + inversion Hnum; assumption.
    + inversion Hnum as [|? ? _ Hrest]. inversion Hrest; assumption.
  - simpl in Hlen. lia.
Qed.

(** With a configuration the call neither panics nor returns the error of
    [packSemver]. *)
Lemma DialWithDialer_outcome env dialer addr tlsConfig cfg :
  fst (DialWithDialer env dialer addr (Some cfg) tlsConfig []) <> Panicked /\
  forall s, fst (DialWithDialer env dialer addr (Some cfg) tlsConfig []) <>
            Returned (None, Some (ErrInvalidSemver s)).
Proof.
  destruct (tlsDial env dialer "tcp" addr tlsConfig) as [conn|msg] eqn:Hdial.
  - destruct (Z.eq_dec (deadline dialer (now env)) 0) as [Hz|Hnz].
    + rewrite (DialWithDialer_no_deadline _ _ _ _ _ _ Hdial Hz).
      destruct (offered env) as [[r|]|]; split; try intros s; discriminate.
    + rewrite (DialWithDialer_deadline _ _ _ _ _ _ Hdial Hnz).
      destruct (offered env) as [[r|]|], (pick env);
        split; try intros s; discriminate.
  - dial_unfold. rewrite Hdial. simpl. split; try intros s; discriminate.
Qed.

(** C5. When the [Semver] override is three dotted numerals of which one
    exceeds its bound, or fewer than three dotted numerals, and
    [VersionUint32] is nil, [packSemver] refuses it, the Version message
    carries [ClientVersion], and the call goes on: it neither panics nor
    returns the error of [packSemver], and on an open transport it writes
    the Version and the Authenticate message. *)
Theorem semver_fallback env dialer addr tlsConfig cfg vo :
  Config_VersionOverride cfg = Some vo ->
  VersionUint32 vo = None ->
  violates_bound (Semver vo) \/ fewer_than_three (Semver vo) ->
  packSemver (Semver vo) = (0, Some (ErrInvalidSemver (Semver vo))) /\
  MumbleProto.Version_ (versionPacket env (Some cfg)) = Some ClientVersion /\
  fst (DialWithDialer env dialer addr (Some cfg) tlsConfig []) <> Panicked /\
  (forall s, fst (DialWithDialer env dialer addr (Some cfg) tlsConfig []) <>
             Returned (None, Some (ErrInvalidSemver s))) /\
  (forall conn,
      tlsDial env dialer "tcp" addr tlsConfig = inl conn ->
      writes (snd (DialWithDialer env dialer addr (Some cfg) tlsConfig [])) =
      [ MsgVersion (versionPacket env (Some cfg));
        MsgAuthenticate (authenticateOf env cfg) ]).
Proof.
  intros Hvo Hnil Hbad.
  assert (Hpack : packSemver (Semver vo) = (0, Some (ErrInvalidSemver (Semver vo)))).
  { destruct Hbad as [Hbound|Hfew].
    - apply packSemver_violates_bound. exact Hbound.
    - apply packSemver_fewer_than_three. exact Hfew. }
  split; [exact Hpack|]. split; [|split; [|split]].
  - unfold versionPacket. rewrite (versionFields_override env cfg vo Hvo).
    simpl. rewrite Hnil, Hpack.
    destruct (Semver vo =? EmptyString)%string; reflexivity.
  - apply DialWithDialer_outcome.
  - apply DialWithDialer_outcome.
  - intros conn Hdial.
    destruct (DialWithDialer_log env dialer addr tlsConfig cfg conn Hdial)
      as (rest & Hlog & Hrest).
    rewrite Hlog. simpl. rewrite Hrest. reflexivity.
Qed.

Lemma semver_fallback_witness :
  let env := exampleEnv (inl exampleConn) (Some None) PickConnect in
  let cfg := configWith minorTooLarge in
  packSemver "1.256.0" = (0, Some (ErrInvalidSemver "1.256.0")) /\
  MumbleProto.Version_ (versionPacket env (Some cfg)) = Some 0x00010300 /\
  fst (DialWithDialer env {| Timeout := 0; Deadline := 0 |} "example.org:64738"
                      (Some cfg) None []) =
  Returned (Some (newClient exampleConn (Some cfg)), None).
Proof.
  intros env cfg.
  destruct (semver_fallback env {| Timeout := 0; Deadline := 0 |}
              "example.org:64738" None cfg minorTooLarge) as (Hpack & Hver & _).
  - reflexivity.
  - reflexivity.
  - left. exists "1", "256", "0".
    repeat split; try reflexivity. right. left. reflexivity.
  - split; [exact Hpack|]. split; [exact Hver|]. reflexivity.
Defined.


(** * Further properties of the code *)

(** ** What [packSemver] reads and what it refuses *)

Lemma byte_of_range a : 0 <= byte_of a < 256.
Proof.
  unfold byte_of. pose proof (N_ascii_bounded a) as H.
  apply N2Z.inj_lt in H. simpl in H. lia.
Qed.

Lemma decode_ascii_run bs rest :
  forallb is_ascii bs = true ->
  utf8.decode (bs ++ rest) = bs ++ utf8.decode rest.
Proof.
  induction bs as [|b bs IH]; intros H; [reflexivity|].
  cbn [forallb] in H. apply andb_true_iff in H. destruct H as [Hb Hbs].
  unfold is_ascii in Hb. apply andb_true_iff in Hb. destruct Hb as [Hlo Hhi].
  apply Z.leb_le in Hlo. apply Z.ltb_lt in Hhi.
  rewrite <- app_comm_cons, decode_ascii by lia.
  rewrite IH by exact Hbs. reflexivity.
Qed.

Lemma blanks_bytes s :
  blanks s = true ->
  forallb is_blank (bytes s) = true /\ forallb is_ascii (bytes s) = true.
Proof.
  induction s as [|a s IH]; simpl; [auto|].
  intros H. apply andb_true_iff in H. destruct H as [Ha Hs].
  destruct (IH Hs) as [IH1 IH2]. rewrite Ha, IH1, IH2.
  split; [reflexivity|].
  unfold is_blank in Ha. apply orb_true_iff in Ha.
  destruct Ha as [Ha|Ha]; apply Z.eqb_eq in Ha; rewrite Ha; reflexivity.
Qed.

Lemma digits_ascii ds :
  forallb strconv.is_digit ds = true -> forallb is_ascii ds = true.
Proof.
  induction ds as [|d ds IH]; intros H; [reflexivity|].
  cbn [forallb] in *. apply andb_true_iff in H. destruct H as [Hd Hds].
  rewrite IH by exact Hds. apply is_digit_range in Hd.
  unfold is_ascii.
  destruct (0 <=? d) eqn:E1; [|apply Z.leb_gt in E1; lia].
  destruct (d <? 128) eqn:E2; [|apply Z.ltb_ge in E2; lia].
  reflexivity.
Qed.

Lemma runes_blanks bl rest :
  blanks bl = true -> runes (bl ++ rest) = bytes bl ++ runes rest.
Proof.
  intros H. apply blanks_bytes in H. destruct H as [_ H].
  unfold runes. rewrite bytes_app. apply decode_ascii_run. exact H.
Qed.

Lemma runes_numeral_then s rest :
  numeral s = true -> runes (s ++ rest) = bytes s ++ runes rest.
Proof.
  intros H. apply numeral_bytes in H. destruct H as [_ H].
  unfold runes. rewrite bytes_app. apply decode_digits. exact H.
Qed.

Lemma runes_ascii_char a rest :
  is_ascii (byte_of a) = true ->
  runes (String a rest) = byte_of a :: runes rest.
Proof.
  intros H. unfold runes. cbn [bytes].
  apply (decode_ascii_run [byte_of a]). cbn [forallb]. rewrite H. reflexivity.
Qed.

Lemma SkipSpace_blanks bl inp :
  forallb is_blank bl = true -> fmt.SkipSpace (bl ++ inp) = fmt.SkipSpace inp.
Proof.
  induction bl as [|b bl IH]; intros H; [reflexivity|].
  cbn [forallb] in H. apply andb_true_iff in H. destruct H as [Hb Hbl].
  rewrite <- IH by exact Hbl.
  unfold is_blank in Hb. apply orb_true_iff in Hb.
  destruct Hb as [Hb|Hb]; apply Z.eqb_eq in Hb; subst b; reflexivity.
Qed.

(** Blanks before a numeral do not change what a verb reads. *)
Lemma doScanf_blanks bl ds rest format nargs np vals :
  forallb is_blank bl = true ->
  ds <> [] ->
  forallb strconv.is_digit ds = true ->
  fmt.doScanf (fmt.Verb_d :: format) nargs np vals (bl ++ ds ++ rest) =
  fmt.doScanf (fmt.Verb_d :: format) nargs np vals (ds ++ rest).
Proof.
  intros Hbl Hne Hds. cbn [fmt.doScanf].
  rewrite SkipSpace_blanks by exact Hbl. reflexivity.
Qed.

Lemma peek_no_leading_digit t :
  no_leading_digit t = true -> fmt.peek strconv.is_digit (runes t) = false.
Proof.
  destruct t as [|a t]; [reflexivity|].
  cbn [no_leading_digit]. intros H. apply andb_true_iff in H.
  destruct H as [Hascii Hnd]. rewrite runes_ascii_char by exact Hascii.
  cbn [fmt.peek]. apply negb_true_iff. exact Hnd.
Qed.

(** The scan of three numerals with blanks before them and text after
    them is the scan of the three numerals. *)
Lemma Sscanf_lenient b1 b2 b3 M m p rest :
  blanks b1 = true -> blanks b2 = true -> blanks b3 = true ->
  numeral M = true -> numeral m = true -> numeral p = true ->
  no_leading_digit rest = true ->
  fmt.Sscanf (b1 ++ M ++ "." ++ b2 ++ m ++ "." ++ b3 ++ p ++ rest) semverFormat 3 =
  fmt.Sscanf (M ++ "." ++ m ++ "." ++ p) semverFormat 3.
Proof.
  intros Hb1 Hb2 Hb3 HM Hm Hp Hrest.
  rewrite Sscanf_three by assumption.
  unfold fmt.Sscanf, semverFormat, value.
  rewrite (runes_blanks b1) by assumption.
  rewrite (runes_numeral_then M) by assumption.
  change (runes ("." ++ b2 ++ m ++ "." ++ b3 ++ p ++ rest))
    with (utf8.decode (46 :: bytes (b2 ++ m ++ "." ++ b3 ++ p ++ rest))).
  rewrite decode_ascii by lia. fold (runes (b2 ++ m ++ "." ++ b3 ++ p ++ rest)).
  rewrite (runes_blanks b2) by assumption.
  rewrite (runes_numeral_then m) by assumption.
  change (runes ("." ++ b3 ++ p ++ rest))
    with (utf8.decode (46 :: bytes (b3 ++ p ++ rest))).
  rewrite decode_ascii by lia. fold (runes (b3 ++ p ++ rest)).
  rewrite (runes_blanks b3) by assumption.
  rewrite (runes_numeral_then p) by assumption.
  pose proof (peek_no_leading_digit rest Hrest) as Hpeek.
  apply blanks_bytes in Hb1, Hb2, Hb3.
  destruct Hb1 as [Hb1 _], Hb2 as [Hb2 _], Hb3 as [Hb3 _].
  apply numeral_bytes in HM. destruct HM as [HneM HdM].
  apply numeral_bytes in Hm. destruct Hm as [Hnem Hdm].
  apply numeral_bytes in Hp. destruct Hp as [Hnep Hdp].
  rewrite doScanf_blanks by assumption.
  rewrite doScanf_numeral by side.
  destruct (digits_value 0 (bytes M) <? 2 ^ 32); [|reflexivity].
  rewrite doScanf_literal.
  rewrite doScanf_blanks by assumption.
  rewrite doScanf_numeral by side.
  destruct (digits_value 0 (bytes m) <? 2 ^ 32); [|reflexivity].
  rewrite doScanf_literal.
  rewrite doScanf_blanks by assumption.
  rewrite doScanf_numeral by side.
  destruct (digits_value 0 (bytes p) <? 2 ^ 32); reflexivity.
Qed.

(** [packSemver] depends on its argument through the scan, and in the text
    of the error. *)
Lemma packSemver_same_scan s s' :
  fmt.Sscanf s semverFormat 3 = fmt.Sscanf s' semverFormat 3 ->
  packSemver s =
  (fst (packSemver s'),
   match snd (packSemver s') with
   | Some _ => Some (ErrInvalidSemver s)
   | None => None
   end).
Proof.
  intros H. unfold packSemver. rewrite H.
  destruct (fmt.Sscanf s' semverFormat 3) as [[n vals] err].
  match goal with |- (if ?c then _ else _) = _ => destruct c end; reflexivity.
Qed.

(** X1. Blanks before each of the three numbers and text after the patch
    number that does not start with a digit are not looked at: the result
    is the packed word when the three numbers are within their bounds and
    the error otherwise. *)
Theorem packSemver_lenient b1 b2 b3 M m p rest :
  blanks b1 = true -> blanks b2 = true -> blanks b3 = true ->
  numeral M = true -> numeral m = true -> numeral p = true ->
  no_leading_digit rest = true ->
  packSemver (b1 ++ M ++ "." ++ b2 ++ m ++ "." ++ b3 ++ p ++ rest) =
  if (value M <=? 0xFFFF) && (value m <=? 0xFF) && (value p <=? 0xFF)
  then (pack (value M) (value m) (value p), None)
  else (0, Some (ErrInvalidSemver
                   (b1 ++ M ++ "." ++ b2 ++ m ++ "." ++ b3 ++ p ++ rest))).
Proof.
  intros Hb1 Hb2 Hb3 HM Hm Hp Hrest.
  rewrite (packSemver_same_scan _ (M ++ "." ++ m ++ "." ++ p))
    by (apply Sscanf_lenient; assumption).
  rewrite packSemver_three by assumption.
  destruct ((value M <=? 0xFFFF) && (value m <=? 0xFF) && (value p <=? 0xFF));
    reflexivity.
Qed.

Lemma packSemver_lenient_witness :
  packSemver " 1. 2.3-rc1" = (0x00010203, None).
Proof.
  apply (packSemver_lenient " " " " EmptyString "1" "2" "3" "-rc1");
    reflexivity.
Defined.

(** The first verb on input that starts with something else than a number. *)
Lemma doScanf_not_a_number b inp format nargs np vals :
  strconv.is_digit b = false ->
  fmt.isSpace b = false \/ b = 10 ->
  snd (fmt.doScanf (fmt.Verb_d :: format) nargs np vals (b :: inp)) <> None.
Proof.
  intros Hnd Hsp. cbn [fmt.doScanf fmt.SkipSpace].
  destruct Hsp as [Hsp|E]; [|subst b; simpl; discriminate].
  assert (H13 : (b =? 13) = false).
  { destruct (b =? 13) eqn:E; [|reflexivity].
    apply Z.eqb_eq in E. subst b. discriminate. }
  assert (H10 : (b =? 10) = false).
  { destruct (b =? 10) eqn:E; [|reflexivity].
    apply Z.eqb_eq in E. subst b. discriminate. }
  rewrite H13, H10, Hsp. cbn [andb].
  destruct (nargs <=? np)%nat; [discriminate|].
  unfold fmt.scanUint, fmt.bind. cbn [fmt.SkipSpace].
  rewrite H13, H10, Hsp. cbn [andb fmt.notEOF].
  unfold fmt.scanNumber, fmt.bind, fmt.notEOF, fmt.accept.
  rewrite Hnd. discriminate.
Qed.

(** X2. A version string that is empty, or starts with an ASCII character
    that is neither a digit nor white space, or starts with a newline, is
    refused: so are a leading sign and a leading "v". *)
Theorem packSemver_refuses_start a rest :
  is_ascii (byte_of a) = true ->
  strconv.is_digit (byte_of a) = false ->
  fmt.isSpace (byte_of a) = false \/ byte_of a = 10 ->
  packSemver (String a rest) = (0, Some (ErrInvalidSemver (String a rest))) /\
  packSemver EmptyString = (0, Some (ErrInvalidSemver EmptyString)).
Proof.
  intros Hascii Hnd Hsp. split; [|reflexivity].
  apply packSemver_scan_error.
  unfold fmt.Sscanf, semverFormat. rewrite runes_ascii_char by exact Hascii.
  apply doScanf_not_a_number; assumption.
Qed.

Lemma packSemver_refuses_start_witness :
  packSemver "v1.3.0" = (0, Some (ErrInvalidSemver "v1.3.0")).
Proof.
  apply (packSemver_refuses_start "v" "1.3.0").
  - reflexivity.
  - reflexivity.
  - left. reflexivity.
Defined.

(** The literal dot of the format on another character. *)
Lemma doScanf_no_dot c inp format nargs np vals :
  c <> 46 ->
  snd (fmt.doScanf (fmt.Lit 46 :: format) nargs np vals (c :: inp)) <> None.
Proof.
  intros Hc. cbn [fmt.doScanf].
  destruct (46 =? c) eqn:E; [apply Z.eqb_eq in E; congruence|].
  discriminate.
Qed.

(** X3. The major and the minor number must be followed by a dot at once: a
    blank or any other ASCII character that is neither a digit nor a dot
    after either of them makes [packSemver] refuse the string. *)
Theorem packSemver_needs_dot M m a rest :
  numeral M = true -> numeral m = true ->
  is_ascii (byte_of a) = true ->
  strconv.is_digit (byte_of a) = false ->
  byte_of a <> 46 ->
  snd (packSemver (M ++ String a rest)) <> None /\
  snd (packSemver (M ++ "." ++ m ++ String a rest)) <> None.
Proof.
  intros HM Hm Hascii Hnd Hdot.
  assert (Hpeek : forall r, fmt.peek strconv.is_digit (byte_of a :: r) = false)
    by (intros r; exact Hnd).
  pose proof (numeral_bytes M HM) as [HneM HdM].
  pose proof (numeral_bytes m Hm) as [Hnem Hdm].
  split.
  - rewrite packSemver_scan_error; [discriminate|].
    unfold fmt.Sscanf, semverFormat.
    rewrite runes_numeral_then, runes_ascii_char by assumption.
    rewrite doScanf_numeral by (first [apply Hpeek | side]).
    destruct (digits_value 0 (bytes M) <? 2 ^ 32); [|discriminate].
    apply doScanf_no_dot. exact Hdot.
  - rewrite packSemver_scan_error; [discriminate|].
    unfold fmt.Sscanf, semverFormat.
    rewrite runes_numeral_dot, runes_numeral_then, runes_ascii_char
      by assumption.
    rewrite doScanf_numeral by side.
    destruct (digits_value 0 (bytes M) <? 2 ^ 32); [|discriminate].
    rewrite doScanf_literal.
    rewrite doScanf_numeral by (first [apply Hpeek | side]).
    destruct (digits_value 0 (bytes m) <? 2 ^ 32); [|discriminate].
    apply doScanf_no_dot. exact Hdot.
Qed.

Lemma packSemver_needs_dot_witness :
  snd (packSemver "1 .3.0") <> None /\ snd (packSemver "1.3-0") <> None.
Proof.
  destruct (packSemver_needs_dot "1" "3" " " ".3.0") as [H1 _];
    try reflexivity; try discriminate.
  destruct (packSemver_needs_dot "1" "3" "-" "0") as [_ H2];
    try reflexivity; try discriminate.
  split; assumption.
Defined.




Lemma pack_nonneg maj min pat :
  0 <= maj -> 0 <= min -> 0 <= pat -> 0 <= pack maj min pat.
Proof.
  intros HM Hm Hp. unfold pack.
  apply Z.lor_nonneg. split; [|exact Hp].
  apply Z.lor_nonneg. split; apply Z.shiftl_nonneg; assumption.
Qed.

(** Within the bounds the packed word is the number
    major * 65536 + minor * 256 + patch. *)
Lemma pack_arith maj min pat :
  0 <= maj <= 0xFFFF -> 0 <= min <= 0xFF -> 0 <= pat <= 0xFF ->
  pack maj min pat = maj * 65536 + min * 256 + pat.
Proof.
  intros HM Hm Hp.
  pose proof (unpack_pack maj min pat HM Hm Hp) as Hu.
  pose proof (pack_nonneg maj min pat) as Hnn.
  set (w := pack maj min pat) in *.
  unfold unpack in Hu. injection Hu as H16 H8 H0.
  change 0xFF with (Z.ones 8) in H8, H0.
  rewrite Z.land_ones in H8, H0 by lia.
  rewrite Z.shiftr_div_pow2 in H16, H8 by lia.
  change (2 ^ 16) with 65536 in H16. change (2 ^ 8) with 256 in H8, H0.
  pose proof (Z.div_mod w 256 ltac:(lia)) as D1.
  pose proof (Z.div_mod (w / 256) 256 ltac:(lia)) as D2.
  rewrite Z.div_div in D2 by lia. change (256 * 256) with 65536 in D2.
  lia.
Qed.

(** X5. The words of accepted version strings order as the versions do:
    the word of one is below the word of another exactly when its major is
    smaller, or the majors agree and its minor is smaller, or those agree
    and its patch is smaller.  Equal words mean equal numbers. *)
Theorem packSemver_order M m p M' m' p' w w' :
  numeral M = true -> numeral m = true -> numeral p = true ->
  numeral M' = true -> numeral m' = true -> numeral p' = true ->
  packSemver (M ++ "." ++ m ++ "." ++ p) = (w, None) ->
  packSemver (M' ++ "." ++ m' ++ "." ++ p') = (w', None) ->
  (w < w' <->
   value M < value M' \/
   (value M = value M' /\
    (value m < value m' \/ (value m = value m' /\ value p < value p')))) /\
  (w = w' <-> value M = value M' /\ value m = value m' /\ value p = value p').
Proof.
  intros HM Hm Hp HM' Hm' Hp' Hw Hw'.
  rewrite packSemver_three in Hw, Hw' by assumption.
  pose proof (value_nonneg M HM). pose proof (value_nonneg m Hm).
  pose proof (value_nonneg p Hp). pose proof (value_nonneg M' HM').
  pose proof (value_nonneg m' Hm'). pose proof (value_nonneg p' Hp').
  destruct ((value M <=? 0xFFFF) && (value m <=? 0xFF) && (value p <=? 0xFF))
    eqn:Hok; [|discriminate].
  destruct ((value M' <=? 0xFFFF) && (value m' <=? 0xFF) && (value p' <=? 0xFF))
    eqn:Hok'; [|discriminate].
  apply andb_true_iff in Hok. destruct Hok as [Hok Hbp].
  apply andb_true_iff in Hok. destruct Hok as [HbM Hbm].
  apply andb_true_iff in Hok'. destruct Hok' as [Hok' Hbp'].
  apply andb_true_iff in Hok'. destruct Hok' as [HbM' Hbm'].
  apply Z.leb_le in HbM, Hbm, Hbp, HbM', Hbm', Hbp'.
  injection Hw as <-. injection Hw' as <-.
  rewrite !pack_arith by lia. lia.
Qed.

Lemma packSemver_order_witness :
  fst (packSemver "1.2.255") < fst (packSemver "1.3.0").
Proof.
  pose proof (packSemver_order "1" "2" "255" "1" "3" "0"
                (fst (packSemver "1.2.255")) (fst (packSemver "1.3.0"))
                eq_refl eq_refl eq_refl eq_refl eq_refl eq_refl
                eq_refl eq_refl) as [Hlt _].
  apply Hlt. right. split; [reflexivity|]. left. reflexivity.
Defined.

(** ** The outcomes of [DialWithDialer] *)

(** Every way a call can go, by the dial, the configuration, the deadline,
    what the read routine hands over and the case the select runs. *)
Ltac dial_cases env dialer addr config tlsConfig :=
  let conn := fresh "conn" in
  let msg := fresh "msg" in
  let cfg := fresh "cfg" in
  let Hdial := fresh "Hdial" in
  let Hz := fresh "Hz" in
  let Hoff := fresh "Hoff" in
  let Hpick := fresh "Hpick" in
  let r := fresh "r" in
  destruct (tlsDial env dialer "tcp" addr tlsConfig) as [conn|msg] eqn:Hdial;
  [ destruct config as [cfg|];
    [ destruct (Z.eq_dec (deadline dialer (now env)) 0) as [Hz|Hz];
      [ rewrite (DialWithDialer_no_deadline env dialer addr tlsConfig cfg conn Hdial Hz);
        destruct (offered env) as [[r|]|] eqn:Hoff
      | rewrite (DialWithDialer_deadline env dialer addr tlsConfig cfg conn Hdial Hz);
        destruct (offered env) as [[r|]|] eqn:Hoff;
        destruct (pick env) eqn:Hpick ]
    | dial_unfold; rewrite Hdial ]
  | dial_unfold; rewrite Hdial ];
  cbn [fst snd app].

(** X6. When [DialWithDialer] returns, exactly one of the client and the
    error is nil. *)
Theorem DialWithDialer_client_xor_error env dialer addr config tlsConfig c e :
  fst (DialWithDialer env dialer addr config tlsConfig []) = Returned (c, e) ->
  (c = None /\ e <> None) \/ (c <> None /\ e = None).
Proof.
  dial_cases env dialer addr config tlsConfig;
    intros H; try discriminate; injection H as <- <-;
    first [ left; split; [reflexivity|discriminate]
          | right; split; [discriminate|reflexivity] ].
Qed.

Lemma DialWithDialer_client_xor_error_witness :
  (@None Client = None /\ Some ErrSyncTimeout <> None) \/
  (@None Client <> None /\ Some ErrSyncTimeout = None).
Proof.
  apply (DialWithDialer_client_xor_error
           (exampleEnv (inl exampleConn) None PickConnect)
           {| Timeout := 5000000000; Deadline := 0 |} "example.org:64738"
           (Some exampleConfig) None None (Some ErrSyncTimeout)).
  reflexivity.
Defined.


(** X8. The transport is closed exactly once when the call returns the
    timeout error or a rejection, and not at all when it returns a client,
    when the dial failed, when it panics or when it blocks. *)
Theorem DialWithDialer_closes env dialer addr config tlsConfig :
  count is_close (snd (DialWithDialer env dialer addr config tlsConfig [])) =
  match fst (DialWithDialer env dialer addr config tlsConfig []) with
  | Returned (_, Some ErrSyncTimeout) => 1%nat
  | Returned (_, Some (ErrReject _)) => 1%nat
  | _ => 0%nat
  end.
Proof.
  dial_cases env dialer addr config tlsConfig; reflexivity.
Qed.

(** X9. At most one timer is armed, every armed timer is stopped, and the
    stop is the last thing the call does. *)
Theorem DialWithDialer_timer env dialer addr config tlsConfig :
  let log := snd (DialWithDialer env dialer addr config tlsConfig []) in
  (count is_new_timer log <= 1)%nat /\
  count is_timer_stop log = count is_new_timer log /\
  (count is_new_timer log = 1%nat -> last log EvGoReadRoutine = EvTimerStop).
Proof.
  dial_cases env dialer addr config tlsConfig;
    repeat split; try reflexivity; try (cbn; lia); cbn; intros; congruence.
Qed.

(** X10. The call blocks for ever exactly when the transport was opened,
    the configuration is not nil, the dialer sets neither a deadline nor a
    positive timeout, and the read routine never hands anything over. *)
Theorem DialWithDialer_blocks env dialer addr config tlsConfig :
  fst (DialWithDialer env dialer addr config tlsConfig []) = Blocked <->
  (exists conn, tlsDial env dialer "tcp" addr tlsConfig = inl conn) /\
  config <> None /\
  deadline dialer (now env) = 0 /\
  offered env = None.
Proof.
  split.
  - dial_cases env dialer addr config tlsConfig;
      intros H; try discriminate;
      repeat split; try discriminate; eauto.
  - intros ((conn' & Hd) & Hcfg & Hz' & Ho).
    dial_cases env dialer addr config tlsConfig; congruence.
Qed.


Lemma DialWithDialer_timer_witness :
  last (snd (DialWithDialer (exampleEnv (inl exampleConn) (Some None) PickConnect)
                            {| Timeout := 5000000000; Deadline := 0 |}
                            "example.org:64738" (Some exampleConfig) None []))
       EvGoReadRoutine = EvTimerStop.
Proof.
  apply (DialWithDialer_timer
           (exampleEnv (inl exampleConn) (Some None) PickConnect)
           {| Timeout := 5000000000; Deadline := 0 |}
           "example.org:64738" (Some exampleConfig) None).
  reflexivity.
Defined.

Lemma DialWithDialer_blocks_witness :
  fst (DialWithDialer (exampleEnv (inl exampleConn) None PickTimeout)
                      {| Timeout := 0; Deadline := 0 |}
                      "example.org:64738" (Some exampleConfig) None []) =
  Blocked.
Proof.
  apply (DialWithDialer_blocks
           (exampleEnv (inl exampleConn) None PickTimeout)
           {| Timeout := 0; Deadline := 0 |}
           "example.org:64738" (Some exampleConfig) None).
  repeat split; try reflexivity; try discriminate.
  exists exampleConn. reflexivity.
Defined.

(** X11. On an open transport with a configuration the call first starts
    the read routine, then writes the Version and the Authenticate message,
    then starts the ping routine; whatever follows only arms or stops the
    timer or closes the transport. *)
Theorem DialWithDialer_order env dialer addr tlsConfig cfg conn :
  tlsDial env dialer "tcp" addr tlsConfig = inl conn ->
  let log := snd (DialWithDialer env dialer addr (Some cfg) tlsConfig []) in
  firstn 5 log =
    [ EvDial "tcp" addr;
      EvGoReadRoutine;
      EvWriteProto (MsgVersion (versionPacket env (Some cfg)));
      EvWriteProto (MsgAuthenticate (authenticateOf env cfg));
      EvGoPingRoutine ] /\
  forallb (fun e => is_new_timer e || is_timer_stop e || is_close e)
          (skipn 5 log) = true.
Proof.
  intros Hdial.
  destruct (Z.eq_dec (deadline dialer (now env)) 0) as [Hz|Hz].
  - rewrite (DialWithDialer_no_deadline env dialer addr tlsConfig cfg conn Hdial Hz).
    destruct (offered env) as [[r|]|]; split; reflexivity.
  - rewrite (DialWithDialer_deadline env dialer addr tlsConfig cfg conn Hdial Hz).
    destruct (offered env) as [[r|]|], (pick env); split; reflexivity.
Qed.

Lemma DialWithDialer_order_witness :
  let log :=
    snd (DialWithDialer
           (exampleEnv (inl exampleConn) (Some (Some exampleReject)) PickConnect)
           {| Timeout := 5000000000; Deadline := 0 |}
           "example.org:64738" (Some exampleConfig) None []) in
  firstn 5 log =
    [ EvDial "tcp" "example.org:64738";
      EvGoReadRoutine;
      EvWriteProto (MsgVersion
        (versionPacket
           (exampleEnv (inl exampleConn) (Some (Some exampleReject)) PickConnect)
           (Some exampleConfig)));
      EvWriteProto (MsgAuthenticate
        (authenticateOf
           (exampleEnv (inl exampleConn) (Some (Some exampleReject)) PickConnect)
           exampleConfig));
      EvGoPingRoutine ] /\
  forallb (fun e => is_new_timer e || is_timer_stop e || is_close e)
          (skipn 5 log) = true.
Proof.
  apply (DialWithDialer_order
           (exampleEnv (inl exampleConn) (Some (Some exampleReject)) PickConnect)
           {| Timeout := 5000000000; Deadline := 0 |}
           "example.org:64738" None exampleConfig exampleConn).
  reflexivity.
Defined.

(** X12. [Dial] arms no timer and never returns the timeout error: it
    returns only through the dial error, a rejection or a sync, and blocks
    while the read routine hands nothing over. *)
Theorem Dial_no_timeout env addr config :
  count is_new_timer (snd (Dial env addr config [])) = 0%nat /\
  (forall c, fst (Dial env addr config []) <> Returned (c, Some ErrSyncTimeout)) /\
  (forall conn cfg,
      tlsDial env {| Timeout := 0; Deadline := 0 |} "tcp" addr None = inl conn ->
      config = Some cfg ->
      offered env = None ->
      fst (Dial env addr config []) = Blocked).
Proof.
  unfold Dial.
  assert (Hz : deadline {| Timeout := 0; Deadline := 0 |} (now env) = 0)
    by reflexivity.
  destruct (tlsDial env {| Timeout := 0; Deadline := 0 |} "tcp" addr None)
    as [conn|msg] eqn:Hdial.
  - destruct config as [cfg|].
    + rewrite (DialWithDialer_no_deadline env _ addr None cfg conn Hdial Hz).
      destruct (offered env) as [[r|]|]; repeat split;
        try intros; try discriminate; try reflexivity.
    + dial_unfold. rewrite Hdial. cbn.
      repeat split; try intros; discriminate.
  - dial_unfold. rewrite Hdial. cbn.
    repeat split; try intros; discriminate.
Qed.

Lemma Dial_no_timeout_witness :
  fst (Dial (exampleEnv (inl exampleConn) None PickTimeout)
            "example.org:64738" (Some exampleConfig) []) = Blocked.
Proof.
  apply (Dial_no_timeout (exampleEnv (inl exampleConn) None PickTimeout)
                         "example.org:64738" (Some exampleConfig))
    with (conn := exampleConn) (cfg := exampleConfig); reflexivity.
Defined.

(** ** The duration of the timer *)

Lemma Sub_in_range t u :
  time.minDuration <= t - u <= time.maxDuration -> time.Sub t u = t - u.
Proof.
  intros H. unfold time.Sub.
  destruct (t - u <? time.minDuration) eqn:E1; [apply Z.ltb_lt in E1; lia|].
  destruct (time.maxDuration <? t - u) eqn:E2; [apply Z.ltb_lt in E2; lia|].
  reflexivity.
Qed.

Lemma DialWithDialer_arms env dialer addr tlsConfig cfg conn :
  tlsDial env dialer "tcp" addr tlsConfig = inl conn ->
  deadline dialer (now env) <> 0 ->
  nth_error (snd (DialWithDialer env dialer addr (Some cfg) tlsConfig [])) 5 =
  Some (EvNewTimer (time.Sub (deadline dialer (now env)) (now env))).
Proof.
  intros Hdial Hnz.
  rewrite (DialWithDialer_deadline env dialer addr tlsConfig cfg conn Hdial Hnz).
  destruct (offered env) as [[r|]|], (pick env); reflexivity.
Qed.

(** X13. When the timeout is positive and the dialer has no deadline, or
    one that is not before the start time plus the timeout, the timer is
    armed with exactly the timeout, and it is armed after the handshake has
    been written and the ping routine started. *)
Theorem DialWithDialer_timer_is_timeout env dialer addr tlsConfig cfg conn :
  tlsDial env dialer "tcp" addr tlsConfig = inl conn ->
  0 < now env ->
  0 < Timeout dialer <= time.maxDuration ->
  Deadline dialer = 0 \/ now env + Timeout dialer <= Deadline dialer ->
  nth_error (snd (DialWithDialer env dialer addr (Some cfg) tlsConfig [])) 5 =
  Some (EvNewTimer (Timeout dialer)).
Proof.
  intros Hdial Hnow HT HD.
  assert (Hd : deadline dialer (now env) = now env + Timeout dialer).
  { rewrite deadline_cases.
    destruct (0 <? Timeout dialer) eqn:ET; [|apply Z.ltb_ge in ET; lia].
    destruct (Deadline dialer =? 0) eqn:E0; [reflexivity|].
    apply Z.eqb_neq in E0. lia. }
  rewrite (DialWithDialer_arms env dialer addr tlsConfig cfg conn Hdial)
    by (rewrite Hd; lia).
  rewrite Hd, Sub_in_range; [do 2 f_equal; lia|].
  unfold time.minDuration, time.maxDuration in *. lia.
Qed.

Lemma DialWithDialer_timer_is_timeout_witness :
  nth_error (snd (DialWithDialer
                    (exampleEnv (inl exampleConn) None PickConnect)
                    {| Timeout := 5000000000; Deadline := 0 |}
                    "example.org:64738" (Some exampleConfig) None [])) 5 =
  Some (EvNewTimer 5000000000).
Proof.
  apply (DialWithDialer_timer_is_timeout
           (exampleEnv (inl exampleConn) None PickConnect)
           {| Timeout := 5000000000; Deadline := 0 |}
           "example.org:64738" None exampleConfig exampleConn).
  - reflexivity.
  - reflexivity.
  - split; [reflexivity|discriminate].
  - left. reflexivity.
Defined.



(** ** Defaults of the Version message *)

(** X15. Without a configuration, without a [VersionOverride], with one
    whose fields are all empty or nil, and for the configuration that
    [NewConfig] returns, the Version message is the default one:
    [ClientVersion], "gumble", the host's operating system and
    architecture. *)
Theorem versionPacket_default env cfg interval dataBytes :
  versionPacket env None = defaultVersion env /\
  (Config_VersionOverride cfg = None \/
   Config_VersionOverride cfg = Some emptyOverride ->
   versionPacket env (Some cfg) = defaultVersion env) /\
  versionPacket env (Some (NewConfig interval dataBytes)) = defaultVersion env.
Proof.
  split; [reflexivity|]. split; [|reflexivity].
  intros [H|H]; unfold versionPacket, versionFields; rewrite H; reflexivity.
Qed.

Lemma versionPacket_default_witness :
  versionPacket (exampleEnv (inl exampleConn) None PickConnect)
                (Some (configWith emptyOverride)) =
  {| MumbleProto.Version_ := Some 0x00010300;
     MumbleProto.Release := Some "gumble";
     MumbleProto.Os := Some "linux";
     MumbleProto.OsVersion := Some "amd64" |}.
Proof.
  destruct (versionPacket_default
              (exampleEnv (inl exampleConn) None PickConnect)
              (configWith emptyOverride) 10000000 40) as (_ & H & _).
  apply H. right. reflexivity.
Defined.

(** ** config.go: the audio frame size *)

Lemma sint64_small x : - 2 ^ 63 <= x < 2 ^ 63 -> sint64 x = x.
Proof.
  intros H. unfold sint64.
  change (2 ^ 64) with 18446744073709551616.
  change (2 ^ 63) with 9223372036854775808 in *.
  rewrite Z.mod_small by lia. lia.
Qed.

(** X16. For an interval of at least [k] and less than [k + 1] default
    intervals, [AudioFrameSize] is [k] default frame sizes: the interval is
    rounded down to a multiple of the default, and an interval shorter than
    the default, as in a zero [Config], gives the frame size 0. *)
Theorem AudioFrameSize_rounds_down defaultInterval defaultFrameSize c k :
  0 < defaultInterval ->
  0 <= k ->
  k * defaultInterval <= AudioInterval c < (k + 1) * defaultInterval ->
  AudioInterval c < 2 ^ 63 ->
  - 2 ^ 63 <= k * defaultFrameSize < 2 ^ 63 ->
  AudioFrameSize defaultInterval defaultFrameSize c = k * defaultFrameSize.
Proof.
  intros HD Hk Hi Hmax HF. unfold AudioFrameSize.
  assert (Hq : Z.quot (AudioInterval c) defaultInterval = k).
  { rewrite Z.quot_div_nonneg by nia.
    symmetry. apply Z.div_unique with (r := AudioInterval c - k * defaultInterval);
      nia. }
  rewrite Hq.
  assert (Hk63 : k < 2 ^ 63) by nia.
  rewrite (sint64_small k) by lia.
  apply sint64_small. exact HF.
Qed.

Lemma AudioFrameSize_rounds_down_witness :
  AudioFrameSize 10000000 480
    {| Username := "bot"; Password := EmptyString;
       Config_VersionOverride := None; Tokens := [];
       AudioInterval := 25000000; AudioDataBytes := 40 |} = 960 /\
  AudioFrameSize 10000000 480
    {| Username := "bot"; Password := EmptyString;
       Config_VersionOverride := None; Tokens := [];
       AudioInterval := 0; AudioDataBytes := 0 |} = 0.
Proof.
  split.
  - apply (AudioFrameSize_rounds_down 10000000 480 _ 2);
      simpl; try lia; reflexivity.
  - apply (AudioFrameSize_rounds_down 10000000 480 _ 0);
      simpl; try lia; reflexivity.
Defined.

(** X17. The configuration that [NewConfig] returns has the default frame
    size, whatever the default interval is, and neither credentials, tokens
    nor a version override. *)
Theorem NewConfig_AudioFrameSize defaultInterval defaultFrameSize dataBytes :
  defaultInterval <> 0 ->
  - 2 ^ 63 <= defaultFrameSize < 2 ^ 63 ->
  let c := NewConfig defaultInterval dataBytes in
  AudioFrameSize defaultInterval defaultFrameSize c = defaultFrameSize /\
  AudioDataBytes c = dataBytes /\
  Username c = EmptyString /\ Password c = EmptyString /\ Tokens c = [] /\
  Config_VersionOverride c = None.
Proof.
  intros HD HF c. repeat split.
  unfold AudioFrameSize. subst c. cbn [AudioInterval NewConfig].
  rewrite Z.quot_same by exact HD.
  rewrite (sint64_small 1) by lia.
  rewrite Z.mul_1_l. apply sint64_small. exact HF.
Qed.

Lemma NewConfig_AudioFrameSize_witness :
  AudioFrameSize 10000000 480 (NewConfig 10000000 40) = 480.
Proof.
  apply (NewConfig_AudioFrameSize 10000000 480 40).
  - discriminate.
  - split; [discriminate|reflexivity].
Defined.
